(** * taskWolf: the Hacker News /newest collector (index.js)

    A shallow embedding of [index.js] and the properties of its
    pagination / dedup / soft-reload loop, of the in-page extraction
    performed by [scrapePage], and of [parseArgs].

    Modelling conventions.
    - JavaScript strings are [string]; a character is one code unit in the
      range 0..255.
    - JavaScript numbers that the program only uses as counters
      ([collected.length], [pages], [want], [maxPages]) are natural numbers;
      the result of [parseInt] is [option Z], [None] standing for [NaN].
      Values beyond the exactly representable integers of a double are
      outside the model.
    - The browser (Playwright [page]) is an interface: a type of worlds with
      the four calls the program makes on it.  A rejected promise is the
      result [Throw].
    - [seen] is a [gset string]; [collected] is a list in push order.
    - The engine state carries a ghost [trace] of the calls made on the
      browser and on the two containers, in program order. *)

From Stdlib Require Import ZArith Ascii String DecimalString DecimalNat.
From stdpp Require Import base list strings gmap.

Local Open Scope Z_scope.
Local Open Scope nat_scope.

(** ** Strings *)

Module Js.

(** White space removed by [String.prototype.trim] (and skipped by
    [parseInt]) among the code units 0..255: TAB, LF, VT, FF, CR, SP, NBSP. *)
Definition is_ws (c : ascii) : bool :=
  let n := nat_of_ascii c in
  (n =? 9) || (n =? 10) || (n =? 11) || (n =? 12) || (n =? 13)
  || (n =? 32) || (n =? 160).

Fixpoint trimStart (s : string) : string :=
  match s with
  | EmptyString => EmptyString
  | String c s' => if is_ws c then trimStart s' else s
  end.

Fixpoint trimEnd (s : string) : string :=
  match s with
  | EmptyString => EmptyString
  | String c s' =>
      match trimEnd s' with
      | EmptyString => if is_ws c then EmptyString else String c EmptyString
      | r => String c r
      end
  end.

(** [s.trim()] *)
Definition trim (s : string) : string := trimEnd (trimStart s).

(** Truthiness of a string: only the empty string is falsy. *)
Definition truthy (s : string) : bool :=
  match s with EmptyString => false | _ => true end.

(** [x || d] for [x] a string or [null]. *)
Definition or_else (x : option string) (d : string) : string :=
  match x with
  | Some s => if truthy s then s else d
  | None => d
  end.

(** [s.startsWith(p)] *)
Fixpoint startsWith (p s : string) : bool :=
  match p with
  | EmptyString => true
  | String a p' =>
      match s with
      | EmptyString => false
      | String b s' => Ascii.eqb a b && startsWith p' s'
      end
  end.

(** [s.split('=')] *)
Fixpoint split_eq (s : string) : list string :=
  match s with
  | EmptyString => [EmptyString]
  | String c s' =>
      if Ascii.eqb c "="%char then EmptyString :: split_eq s'
      else match split_eq s' with
           | [] => [String c EmptyString]
           | h :: t => String c h :: t
           end
  end.

Definition is_digit (c : ascii) : bool :=
  let n := nat_of_ascii c in (48 <=? n) && (n <=? 57).

Definition digit_val (c : ascii) : Z := Z.of_nat (nat_of_ascii c - 48).

(** Value of the longest prefix of decimal digits, [None] when there is none. *)
Fixpoint digits (acc : option Z) (s : string) : option Z :=
  match s with
  | EmptyString => acc
  | String c s' =>
      if is_digit c
      then digits (Some (10 * default 0%Z acc + digit_val c)%Z) s'
      else acc
  end.

(** [parseInt(s, 10)]: skip leading white space, read an optional sign, then
    the longest run of decimal digits; [None] is [NaN].  The value is the
    exact integer: it is the number JavaScript returns as long as its
    absolute value is at most 2^53, beyond which a JavaScript number is
    rounded. *)
Definition parseInt (s : string) : option Z :=
  match trimStart s with
  | String "-" r => Z.opp <$> digits None r
  | String "+" r => digits None r
  | r => digits None r
  end.

(** [parseInt(a[1], 10)] where [a[1]] may be [undefined]; [undefined] is
    converted to the string "undefined". *)
Definition parseInt_field (x : option string) : option Z :=
  parseInt (default "undefined" x).

(** [n || d] for a number: [NaN] and [0] are falsy. *)
Definition num_or (n : option Z) (d : Z) : Z :=
  match n with
  | Some v => if (v =? 0)%Z then d else v
  | None => d
  end.

End Js.

(** [String(n)] for a natural number [n]. *)
Definition decimal (n : nat) : string :=
  NilEmpty.string_of_uint (Nat.to_uint n).

(** The part of [s] before its first "=": element 0 of [s.split('=')]. *)
Fixpoint upto_eq (s : string) : string :=
  match s with
  | EmptyString => EmptyString
  | String c s' =>
      if Ascii.eqb c "="%char then EmptyString else String c (upto_eq s')
  end.

(** ** Command line: [parseArgs] *)

Module Cli.

Definition MAX_PAGES_DEFAULT : Z := 15.

Record Args := mkArgs {
  count : Z;
  head : bool;
  json : bool;
  maxPages : Z
}.

Definition defaults : Args :=
  {| count := 100; head := false; json := false; maxPages := MAX_PAGES_DEFAULT |}.

(** The body of [for (const a of argv.slice(2))]. *)
Definition step (args : Args) (a : string) : Args :=
  if Js.startsWith "--count=" a then
    {| count := Z.max 1 (Js.num_or (Js.parseInt_field (Js.split_eq a !! 1)) 100);
       head := head args; json := json args; maxPages := maxPages args |}
  else if String.eqb a "--head" || String.eqb a "--headed" then
    {| count := count args; head := true; json := json args;
       maxPages := maxPages args |}
  else if String.eqb a "--json" then
    {| count := count args; head := head args; json := true;
       maxPages := maxPages args |}
  else if Js.startsWith "--max-pages=" a then
    {| count := count args; head := head args; json := json args;
       maxPages :=
         Z.max 1 (Js.num_or (Js.parseInt_field (Js.split_eq a !! 1))
                    MAX_PAGES_DEFAULT) |}
  else args.

Definition parseArgs (argv : list string) : Args :=
  foldl step defaults (drop 2 argv).

Definition is_head_flag (a : string) : bool :=
  String.eqb a "--head" || String.eqb a "--headed".

End Cli.

(** ** Page content and the in-page extraction of [scrapePage] *)

Record Item := mkItem {
  id : string;
  title : string;
  iso : string
}.

(** What the extraction reads of a [span.age] element. *)
Record AgeEl := mkAge {
  age_title : option string;  (* getAttribute('title'), null when absent *)
  age_text : string           (* textContent *)
}.

(** What the extraction reads of one [tr.athing] row. *)
Record Row := mkRow {
  row_id : option string;      (* tr.getAttribute('id') *)
  row_titleEl : option string; (* textContent of tr.querySelector('span.titleline a') *)
  row_ageEl : option AgeEl     (* tr.nextElementSibling?.querySelector('span.age') *)
}.

(** What the extraction reads of the document. *)
Record Document := mkDoc {
  rows : list Row;                 (* document.querySelectorAll('tr.athing') *)
  moreEl : option (option string)  (* a.morelink and its href attribute *)
}.

(** The value returned by [page.evaluate]. *)
Record Scrape := mkScrape {
  items : list Item;
  moreHref : option string
}.

(** One turn of [for (const tr of rows)]: the entry pushed to [out], if any. *)
Definition row_entry (tr : Row) : option Item :=
  let id_ := Js.or_else (row_id tr) "" in
  let title_ :=
    match row_titleEl tr with Some t => Js.trim t | None => "" end in
  let isoAttr :=
    match row_ageEl tr with
    | Some a => Js.or_else (age_title a) ""
    | None => ""
    end in
  let iso_ :=
    if Js.truthy isoAttr then isoAttr
    else match row_ageEl tr with
         | Some a => Js.or_else (Some (Js.trim (age_text a))) ""
         | None => ""
         end in
  if Js.truthy id_ && Js.truthy title_ && Js.truthy iso_
  then Some {| id := id_; title := title_; iso := iso_ |}
  else None.

(** The three fields of a row as the specification names them: the id
    attribute, the text of the title element, and the timestamp (the title
    attribute of the age element, or its text when the attribute is absent
    or empty); missing parts read as the empty string. *)
Definition raw_id (tr : Row) : string := default "" (row_id tr).

Definition raw_title (tr : Row) : string := default "" (row_titleEl tr).

Definition raw_timestamp (tr : Row) : string :=
  match row_ageEl tr with
  | Some a =>
      match age_title a with
      | Some t => if Js.truthy t then t else age_text a
      | None => age_text a
      end
  | None => ""
  end.

(** The validity rule in the words of the specification: all three fields
    non-empty after trimming. *)
Definition nonempty_after_trim (tr : Row) : Prop :=
  Js.trim (raw_id tr) ≠ ""
  ∧ Js.trim (raw_title tr) ≠ ""
  ∧ Js.trim (raw_timestamp tr) ≠ "".

(** The timestamp the extraction keeps: the title attribute as it is when
    non-empty, else the trimmed text. *)
Definition kept_timestamp (tr : Row) : string :=
  match row_ageEl tr with
  | Some a =>
      match age_title a with
      | Some t => if Js.truthy t then t else Js.trim (age_text a)
      | None => Js.trim (age_text a)
      end
  | None => ""
  end.

(** The function passed to [page.evaluate]. *)
Definition extract (d : Document) : Scrape :=
  {| items := omap row_entry (rows d);
     moreHref := match moreEl d with Some h => h | None => None end |}.

Arguments extract : simpl never.

(** ** The browser page, as the program uses it *)

Definition BASE : string := "https://news.ycombinator.com".
Definition START : string := BASE +:+ "/newest".

(** [moreHref.startsWith('http') ? moreHref
     : `${BASE}/${moreHref.replace(/^\//, '')}`] *)
Definition next_url (h : string) : string :=
  if Js.startsWith "http" h then h
  else BASE +:+ "/" +:+ match h with String "/" r => r | _ => h end.

(** The calls made on the Playwright [page].  [goto] and [reload] may reject
    (navigation failure); the outcome of [waitForSelector] is discarded by
    [scrapePage], only its effect on the world remains; [content] is the
    document that [page.evaluate] runs the extraction on, [None] when
    [page.evaluate] rejects.  [reload] stands for
    [waitForTimeout(SOFT_RELOAD_DELAY_MS)] followed by [page.reload]. *)
Class Browser (World : Type) := {
  goto : string → World → option World;
  reload : World → option World;
  waitForSelector : World → World;
  content : World → option Document
}.

(** Calls in program order: on the page, on [seen], on [collected], and the
    increment of [pages]. *)
Inductive Event :=
  | EvGoto (u : string)
  | EvReload
  | EvScrape (r : option Scrape)
  | EvHas (i : string) (b : bool)
  | EvAdd (i : string)
  | EvPush (it : Item)
  | EvPages.

#[global] Instance Item_eq_dec : EqDecision Item.
Proof. solve_decision. Defined.
#[global] Instance Scrape_eq_dec : EqDecision Scrape.
Proof. solve_decision. Defined.
#[global] Instance Event_eq_dec : EqDecision Event.
Proof. solve_decision. Defined.

(** How the [while] loop was left. *)
Inductive Exit :=
  | WhileFalse    (* the loop condition was false *)
  | CountReached  (* break: collected.length >= want *)
  | NoMore        (* break: !moreHref *)
  | Threw         (* an exception reached the catch block *)
  | OutOfFuel.    (* the model ran out of fuel; shown not to happen *)

Inductive Res (A : Type) :=
  | Ok (a : A)
  | Throw.
Arguments Ok {A} a.
Arguments Throw {A}.

(** ** The report *)

Module Out.

Record Summary := mkSummary {
  requested : nat;
  collected : nat;
  pages : nat;
  maxPages : nat
}.

(** The object given to [JSON.stringify]; [error] tells whether the [error]
    key is present. *)
Record Json := mkJson {
  ok : bool;
  summary : Summary;
  items : list Item;
  error : bool
}.

End Out.

(** [String(i).padStart(3, ' ')] *)
Definition pad3 (i : nat) : string :=
  let d := NilEmpty.string_of_uint (Nat.to_uint i) in
  match String.length d with
  | 0 => "   " +:+ d
  | 1 => "  " +:+ d
  | 2 => " " +:+ d
  | _ => d
  end.

Definition fmtItem (i : nat) (it : Item) : string :=
  pad3 i +:+ ". " +:+ Js.or_else (Some (iso it)) "(no-iso)" +:+ "  "
  +:+ Js.or_else (Some (id it)) "(no-id)" +:+ "  -  "
  +:+ Js.or_else (Some (title it)) "".

(** ** The collection engine: the body of the async main function *)

Section Engine.

Context {World : Type} `{Browser World}.

Record State := mkState {
  url : string;
  world : World;
  seen : gset string;
  collected : list Item;
  pages : nat;
  trace : list Event
}.

Definition log (e : Event) (s : State) : State :=
  {| url := url s; world := world s; seen := seen s;
     collected := collected s; pages := pages s; trace := trace s ++ [e] |}.

Definition set_world (w : World) (s : State) : State :=
  {| url := url s; world := w; seen := seen s;
     collected := collected s; pages := pages s; trace := trace s |}.

Definition set_url (u : string) (s : State) : State :=
  {| url := u; world := world s; seen := seen s;
     collected := collected s; pages := pages s; trace := trace s |}.

(** [seen.add(i)] *)
Definition seen_add (i : string) (s : State) : State :=
  log (EvAdd i)
    {| url := url s; world := world s; seen := {[ i ]} ∪ seen s;
       collected := collected s; pages := pages s; trace := trace s |}.

(** [collected.push(it)] *)
Definition collected_push (it : Item) (s : State) : State :=
  log (EvPush it)
    {| url := url s; world := world s; seen := seen s;
       collected := collected s ++ [it]; pages := pages s; trace := trace s |}.

(** [pages++] *)
Definition pages_incr (s : State) : State :=
  log EvPages
    {| url := url s; world := world s; seen := seen s;
       collected := collected s; pages := S (pages s); trace := trace s |}.

(** Computations that may throw. *)
Definition M (A : Type) : Type := State → Res A * State.

Definition ret {A} (a : A) : M A := λ s, (Ok a, s).

Definition bind {A B} (m : M A) (k : A → M B) : M B :=
  λ s, match m s with
       | (Ok a, s') => k a s'
       | (Throw, s') => (Throw, s')
       end.

Notation "'await' x <- m ; k" := (bind m (λ x, k))
  (at level 10, x name, m at level 100, k at level 200).
Notation "'awaiting' m ; k" := (bind m (λ _, k))
  (at level 10, m at level 100, k at level 200).

(** [await page.goto(url, ...)] *)
Definition page_goto : M unit :=
  λ s, match goto (url s) (world s) with
       | Some w => (Ok tt, set_world w (log (EvGoto (url s)) s))
       | None => (Throw, log (EvGoto (url s)) s)
       end.

(** [await page.waitForTimeout(...); await page.reload(...)] *)
Definition page_reload : M unit :=
  λ s, match reload (world s) with
       | Some w => (Ok tt, set_world w (log EvReload s))
       | None => (Throw, log EvReload s)
       end.

(** [await scrapePage(page)] *)
Definition scrapePage : M Scrape :=
  λ s, let w := waitForSelector (world s) in
       match content w with
       | Some d => (Ok (extract d), set_world w (log (EvScrape (Some (extract d))) s))
       | None => (Throw, set_world w (log (EvScrape None) s))
       end.

(** Lines 73-83: navigate, scrape, and scrape again after one reload when the
    first scrape found no item. *)
Definition fetch : M Scrape :=
  awaiting page_goto ;
  await r <- scrapePage ;
  if length (items r) =? 0
  then (awaiting page_reload ; scrapePage)
  else ret r.

Variable want : nat.
Variable maxPages : nat.

(** Lines 85-91: [for (const it of items)] with its [break]. *)
Fixpoint merge (its : list Item) (s : State) : State :=
  match its with
  | [] => s
  | it :: rest =>
      let b := bool_decide (id it ∈ seen s) in
      let s1 := log (EvHas (id it) b) s in
      if b then merge rest s1
      else
        let s2 := collected_push it (seen_add (id it) s1) in
        if want <=? length (collected s2) then s2 else merge rest s2
  end.

(** Lines 73-97: one turn of the [while] loop.  [Ok None] goes on to the next
    turn, [Ok (Some e)] is a [break]. *)
Definition body : M (option Exit) :=
  await r <- fetch ;
  λ s1,
    let s2 := pages_incr (merge (items r) s1) in
    if want <=? length (collected s2) then (Ok (Some CountReached), s2)
    else match moreHref r with
         | Some h =>
             if Js.truthy h then (Ok None, set_url (next_url h) s2)
             else (Ok (Some NoMore), s2)
         | None => (Ok (Some NoMore), s2)
         end.

(** [while (collected.length < want && pages < maxPages)] *)
Definition cond (s : State) : bool :=
  (length (collected s) <? want) && (pages s <? maxPages).

Fixpoint loop (fuel : nat) (s : State) : Exit * State :=
  if cond s then
    match fuel with
    | 0 => (OutOfFuel, s)
    | S fuel' =>
        match body s with
        | (Ok None, s') => loop fuel' s'
        | (Ok (Some e), s') => (e, s')
        | (Throw, s') => (Threw, s')
        end
    end
  else (WhileFalse, s).

Definition init (w : World) : State :=
  {| url := START; world := w; seen := ∅; collected := [];
     pages := 0; trace := [] |}.

(** The run up to the end of the [while] loop (or to the exception). *)
Definition collect (w : World) : Exit * State := loop maxPages (init w).

(** [seen.size - collected.length], the number printed after [Dups:]. *)
Definition dups (s : State) : Z :=
  (Z.of_nat (size (seen s)) - Z.of_nat (length (collected s)))%Z.

(** The object printed with [--json], on the normal path and in the catch
    block. *)
Definition report_json (r : Exit * State) : Out.Json :=
  let s := r.2 in
  let sm := {| Out.requested := want; Out.collected := length (collected s);
               Out.pages := pages s; Out.maxPages := maxPages |} in
  match r.1 with
  | Threw =>
      {| Out.ok := false; Out.summary := sm; Out.items := collected s;
         Out.error := true |}
  | _ =>
      {| Out.ok := want <=? length (collected s); Out.summary := sm;
         Out.items := take want (collected s); Out.error := false |}
  end.

(** The numbered lines printed without [--json] on the normal path. *)
Definition report_lines (r : Exit * State) : list string :=
  match r.1 with
  | Threw => []
  | _ => imap (λ i it, fmtItem (i + 1) it) (take want (collected r.2))
  end.

(** [process.exitCode] *)
Definition exit_code (r : Exit * State) : nat :=
  match r.1 with
  | Threw => 1
  | _ => if want <=? length (collected r.2) then 0 else 1
  end.

End Engine.

(** The async main function up to the end of the loop: the counts come from
    [parseArgs], which never returns a count or a page budget below 1. *)
Definition main {World : Type} `{Browser World} (argv : list string)
    (w : World) : Exit * State :=
  let args := Cli.parseArgs argv in
  collect (Z.to_nat (Cli.count args)) (Z.to_nat (Cli.maxPages args)) w.

Arguments State World : clear implicits.

(** ** The source as a sequence of pages, and first-seen deduplication

    These definitions do not mention [want]: they describe what the source
    supplies, against which the engine is compared. *)

(** The items of [its] whose id is neither in [X] nor carried by an earlier
    item of [its]: first occurrences, in order. *)
Fixpoint fresh (X : gset string) (its : list Item) : list Item :=
  match its with
  | [] => []
  | it :: rest =>
      if bool_decide (id it ∈ X) then fresh X rest
      else it :: fresh ({[ id it ]} ∪ X) rest
  end.

Definition ids (l : list Item) : gset string := list_to_set (id <$> l).

Section Source.

Context {World : Type} `{Browser World}.

Definition scrape_of (w : World) : option (Scrape * World) :=
  let w' := waitForSelector w in
  match content w' with
  | Some d => Some (extract d, w')
  | None => None
  end.

(** The outcome of visiting the page at [u]: the scrape that is merged (the
    second one when the first found nothing), or [None] if a call rejects. *)
Definition visit (u : string) (w : World) : option (Scrape * World) :=
  match goto u w with
  | None => None
  | Some w1 =>
      match scrape_of w1 with
      | None => None
      | Some (r, w2) =>
          if length (items r) =? 0 then
            match reload w2 with
            | None => None
            | Some w3 => scrape_of w3
            end
          else Some (r, w2)
      end
  end.

(** The item lists of the pages reached from [u] by following the next link,
    at most [n] pages, up to the first page without a next link or the first
    rejected call. *)
Fixpoint crawl (n : nat) (u : string) (w : World) : list (list Item) :=
  match n with
  | 0 => []
  | S n' =>
      match visit u w with
      | None => []
      | Some (r, w') =>
          items r ::
          match moreHref r with
          | Some h => if Js.truthy h then crawl n' (next_url h) w' else []
          | None => []
          end
      end
  end.

(** The page at [u] parses to zero entries ([r1]) and, after the soft
    reload, still to zero entries ([r2]); [w'] is the world then. *)
Definition empty_twice (u : string) (w : World) (r1 r2 : Scrape) (w' : World)
    : Prop :=
  ∃ w1 d1 w2 d2,
    goto u w = Some w1
    ∧ content (waitForSelector w1) = Some d1
    ∧ r1 = extract d1 ∧ items r1 = []
    ∧ reload (waitForSelector w1) = Some w2
    ∧ content (waitForSelector w2) = Some d2
    ∧ r2 = extract d2 ∧ items r2 = []
    ∧ w' = waitForSelector w2.

(** The unique valid entries the source supplies within [n] pages, in
    first-seen order. *)
Definition supply (n : nat) (w : World) : list Item :=
  fresh ∅ (concat (crawl n START w)).

End Source.

(** ** Concrete browsers, used to run the engine on explicit inputs *)

(** A row that carries the three fields of an entry. *)
Definition row_of (it : Item) : Row :=
  {| row_id := Some (id it); row_titleEl := Some (title it);
     row_ageEl := Some {| age_title := Some (iso it); age_text := "" |} |}.

Definition doc_of (its : list Item) (more : option string) : Document :=
  {| rows := row_of <$> its; moreEl := Some more |}.

Module Script.

(** A scripted page: each navigation, [goto] or [reload], loads the next
    document of the script and rejects when the script is used up. *)
Record World := mkWorld {
  current : option Document;
  script : list Document
}.

Definition load (w : World) : option World :=
  match script w with
  | d :: rest => Some {| current := Some d; script := rest |}
  | [] => None
  end.

#[global] Instance script_browser : Browser World :=
  {| goto := λ _ w, load w;
     reload := load;
     waitForSelector := λ w, w;
     content := current |}.

Definition start (ds : list Document) : World :=
  {| current := None; script := ds |}.

End Script.

(** Two pages: the second repeats an entry of the first and has no next
    link. *)
Definition two_pages : Script.World :=
  Script.start
    [ doc_of [ {| id := "a"; title := "A"; iso := "t1" |};
               {| id := "b"; title := "B"; iso := "t2" |} ]
        (Some "newest?next=b");
      doc_of [ {| id := "b"; title := "B"; iso := "t2" |};
               {| id := "c"; title := "C"; iso := "t3" |};
               {| id := "d"; title := "D"; iso := "t4" |} ]
        None ].

(** A first page that is empty before and after the reload but carries a
    next link, then a page with one entry. *)
Definition empty_then_more : Script.World :=
  Script.start
    [ doc_of [] (Some "newest?next=2");
      doc_of [] (Some "newest?next=2");
      doc_of [ {| id := "a"; title := "A"; iso := "t1" |} ] None ].



(** A first page that is empty at first and has twelve entries after the
    reload. *)
Definition twelve : list Item :=
  (λ n, {| id := pad3 n; title := "T"; iso := "t" |}) <$> seq 1 12.

Definition empty_then_twelve : Script.World :=
  Script.start [ doc_of [] None; doc_of twelve None ].

Module Endless.

(** A source whose every page has the same two rows and a next link. *)
Definition entry (n : string) : Item :=
  {| id := n; title := "t" +:+ n; iso := "2024-01-01T00:00:00" |}.

Definition page : Document :=
  doc_of [entry "1"; entry "2"] (Some "newest?next=1").

#[global] Instance endless_browser : Browser unit :=
  {| goto := λ _ w, Some w;
     reload := λ w, Some w;
     waitForSelector := λ w, w;
     content := λ _, Some page |}.

(** The states met on that source: nothing collected yet, or the two
    entries. *)
Definition met (s : State unit) : Prop :=
  (collected s = [] ∧ seen s = ∅)
  ∨ (collected s = [entry "1"; entry "2"] ∧ seen s = ids [entry "1"; entry "2"]).

End Endless.

(** ** Points of a run

    A point of a run is a prefix of its trace; the values of [seen],
    [collected] and [pages] at that point are obtained by replaying it. *)

Record Snap := mkSnap {
  sn_seen : gset string;
  sn_collected : list Item;
  sn_pages : nat
}.

Definition snap0 : Snap :=
  {| sn_seen := ∅; sn_collected := []; sn_pages := 0 |}.

Definition apply_event (p : Snap) (e : Event) : Snap :=
  match e with
  | EvAdd i =>
      {| sn_seen := {[ i ]} ∪ sn_seen p; sn_collected := sn_collected p;
         sn_pages := sn_pages p |}
  | EvPush it =>
      {| sn_seen := sn_seen p; sn_collected := sn_collected p ++ [it];
         sn_pages := sn_pages p |}
  | EvPages =>
      {| sn_seen := sn_seen p; sn_collected := sn_collected p;
         sn_pages := S (sn_pages p) |}
  | _ => p
  end.

Definition replay (t : list Event) : Snap := foldl apply_event snap0 t.

(** The dedup invariant at a point. *)
Definition dedup_inv (p : Snap) : Prop :=
  length (sn_collected p) ≤ size (sn_seen p)
  ∧ (∀ it, it ∈ sn_collected p → id it ∈ sn_seen p)
  ∧ NoDup (id <$> sn_collected p).

(** Between two turns of the merge loop [seen] holds exactly the ids of
    [collected]. *)
Definition tidy (p : Snap) : Prop :=
  NoDup (id <$> sn_collected p) ∧ sn_seen p = ids (sn_collected p).

Fixpoint count (f : Event → bool) (t : list Event) : nat :=
  match t with
  | [] => 0
  | e :: t' => (if f e then 1 else 0) + count f t'
  end.

Definition is_goto (e : Event) : bool :=
  match e with EvGoto _ => true | _ => false end.
Definition is_reload (e : Event) : bool :=
  match e with EvReload => true | _ => false end.
Definition is_pages (e : Event) : bool :=
  match e with EvPages => true | _ => false end.
(** [seen.has] answered true: an entry skipped as a duplicate. *)
Definition is_dup (e : Event) : bool :=
  match e with EvHas _ true => true | _ => false end.
(** A call on [seen] or [collected]. *)
Definition is_container (e : Event) : bool :=
  match e with EvHas _ _ | EvAdd _ | EvPush _ => true | _ => false end.

(** The events of one page: a [goto] followed by events that are not. *)
Definition page_visit (v : list Event) : Prop :=
  ∃ u rest, v = EvGoto u :: rest ∧ count is_goto rest = 0.

(** The events of a page visit with at most one reload; [finished] tells
    whether the visit reached [pages++]. *)
Definition visit_ok (finished : bool) (v : list Event) : Prop :=
  page_visit v
  ∧ count is_reload v ≤ 1
  ∧ count is_pages v = (if finished then 1 else 0).


(** The run stops at the page whose two scrapes are empty: no [goto]
    follows them in the trace. *)
Definition stops_after_empty_reload (t : list Event) : Prop :=
  ∀ t1 u r1 r2 t2,
    t = t1 ++ [EvGoto u; EvScrape (Some r1); EvReload; EvScrape (Some r2)] ++ t2 →
    items r1 = [] → items r2 = [] →
    count is_goto t2 = 0.

(** Every point strictly before the end of [t] is below the cap. *)
Definition below_cap (want : nat) (t : list Event) : Prop :=
  ∀ t', t' `prefix_of` t → t' ≠ t → length (sn_collected (replay t')) < want.

(** From a point at which the cap is reached on, no call is made on [seen]
    or [collected]. *)
Definition quiet_after_cap (want : nat) (t : list Event) : Prop :=
  ∀ t1 t2, t = t1 ++ t2 → want ≤ length (sn_collected (replay t1)) →
           count is_container t2 = 0.


(** Every reload comes right after a scrape that found no item. *)
Definition reload_after_empty (t : list Event) : Prop :=
  ∀ t1 t2, t = t1 ++ EvReload :: t2 →
           ∃ t0 r, t1 = t0 ++ [EvScrape (Some r)] ∧ items r = [].

(** From a point at which the cap is reached on, nothing happens but the
    increment of [pages]. *)
Definition idle_after_cap (want : nat) (t : list Event) : Prop :=
  ∀ t1 t2, t = t1 ++ t2 → want ≤ length (sn_collected (replay t1)) →
           t2 = [] ∨ t2 = [EvPages].

(** [i] is the id of the entry of a row of a page scraped in the run: the
    trace holds the result of scraping a document [d], and a row of [d]
    yields an entry with id [i]. *)
Definition scraped_row_id (t : list Event) (i : string) : Prop :=
  ∃ d tr it, EvScrape (Some (extract d)) ∈ t ∧ tr ∈ rows d
             ∧ row_entry tr = Some it ∧ id it = i.

(** ** Predicates on engine states *)

Section Predicates.

Context {World : Type}.
Implicit Types (s : State World).

(** [s'] differs from [s] at most in [world] and [trace]. *)
Definition same_data s s' : Prop :=
  url s' = url s ∧ seen s' = seen s ∧ collected s' = collected s
  ∧ pages s' = pages s.

(** How the loop can be left, and what holds then. *)
Definition exit_ok (want maxPages : nat) (e : Exit) s : Prop :=
  pages s ≤ maxPages ∧ length (collected s) ≤ want ∧
  match e with
  | WhileFalse => want ≤ length (collected s) ∨ maxPages ≤ pages s
  | CountReached => length (collected s) = want
  | NoMore => length (collected s) < want
  | Threw => length (collected s) < want ∧ pages s < maxPages
  | OutOfFuel => False
  end.

Definition snap s : Snap :=
  {| sn_seen := seen s; sn_collected := collected s; sn_pages := pages s |}.

(** The trace accounts for the state, the state is tidy, and the dedup
    invariant held at every point so far. *)
Definition sound s : Prop :=
  replay (trace s) = snap s
  ∧ tidy (snap s)
  ∧ ∀ t, t `prefix_of` trace s → dedup_inv (replay t).

(** Every collected entry is an entry of a scrape recorded in the trace. *)
Definition from_scrapes s : Prop :=
  ∀ it, it ∈ collected s →
        ∃ d, EvScrape (Some (extract d)) ∈ trace s ∧ it ∈ items (extract d).

(** A sound state below the cap whose earlier points were below it too. *)
Definition open_run (want : nat) s : Prop :=
  sound s ∧ below_cap want (trace s) ∧ length (collected s) < want.

End Predicates.

(** ** Facts about [parseArgs] *)

Lemma step_count args v :
  Cli.step args ("--count=" +:+ v) =
    {| Cli.count :=
         Z.max 1 (Js.num_or (Js.parseInt_field (Js.split_eq v !! 0)) 100);
       Cli.head := Cli.head args; Cli.json := Cli.json args;
       Cli.maxPages := Cli.maxPages args |}.
Proof. reflexivity. Qed.

Lemma step_maxPages args v :
  Cli.step args ("--max-pages=" +:+ v) =
    {| Cli.count := Cli.count args; Cli.head := Cli.head args;
       Cli.json := Cli.json args;
       Cli.maxPages :=
         Z.max 1 (Js.num_or (Js.parseInt_field (Js.split_eq v !! 0))
                    Cli.MAX_PAGES_DEFAULT) |}.
Proof. reflexivity. Qed.

(** [Math.max(1, n || d)] for a default [d >= 1]. *)
Lemma max_or_default (n : option Z) (d : Z) :
  (1 ≤ d)%Z →
  Z.max 1 (Js.num_or n d) =
    match n with
    | None => d
    | Some k => if (k =? 0)%Z then d else if (k <? 0)%Z then 1%Z else k
    end.
Proof.
  intros Hd. destruct n as [k|]; simpl; [|lia].
  destruct (k =? 0)%Z eqn:H0; [lia|].
  destruct (k <? 0)%Z eqn:H1; lia.
Qed.

Lemma step_floor args a :
  (1 ≤ Cli.count args)%Z ∧ (1 ≤ Cli.maxPages args)%Z →
  (1 ≤ Cli.count (Cli.step args a))%Z ∧ (1 ≤ Cli.maxPages (Cli.step args a))%Z.
Proof.
  intros [Hc Hm]. unfold Cli.step.
  destruct (Js.startsWith "--count=" a); cbn [Cli.count Cli.maxPages]; [lia|].
  destruct (_ || _); cbn [Cli.count Cli.maxPages]; [lia|].
  destruct (String.eqb a "--json"); cbn [Cli.count Cli.maxPages]; [lia|].
  destruct (Js.startsWith "--max-pages=" a); cbn [Cli.count Cli.maxPages]; lia.
Qed.

(** Both counts are at least 1 for every command line. *)
Lemma parseArgs_floor argv :
  (1 ≤ Cli.count (Cli.parseArgs argv))%Z
  ∧ (1 ≤ Cli.maxPages (Cli.parseArgs argv))%Z.
Proof.
  unfold Cli.parseArgs.
  assert ((1 ≤ Cli.count Cli.defaults)%Z ∧ (1 ≤ Cli.maxPages Cli.defaults)%Z)
    as Hd by (by vm_compute).
  revert Hd. generalize Cli.defaults.
  induction (drop 2 argv) as [|a l IH]; intros args Ha; simpl; [done|].
  apply IH. by apply step_floor.
Qed.

(** *** [parseInt] and [split] *)

Lemma split_eq_head v : Js.split_eq v !! 0 = Some (upto_eq v).
Proof.
  induction v as [|c v IH]; simpl; [done|].
  destruct (Ascii.eqb c "="); [done|].
  destruct (Js.split_eq v) as [|h t]; [done|].
  simpl in *. congruence.
Qed.

Lemma digits_upto_eq acc v : Js.digits acc (upto_eq v) = Js.digits acc v.
Proof.
  revert acc. induction v as [|c v IH]; intros acc; simpl; [done|].
  destruct (Ascii.eqb_spec c "=") as [->|Hne]; [done|].
  simpl. destruct (Js.is_digit c); [apply IH|done].
Qed.

(** A first character that is neither white space nor a sign starts the
    digits. *)
Lemma parseInt_plain c x :
  Js.is_ws c = false → c ≠ "-"%char → c ≠ "+"%char →
  Js.parseInt (String c x) = Js.digits None (String c x).
Proof.
  intros Hws Hm Hp. unfold Js.parseInt. simpl Js.trimStart. rewrite Hws.
  destruct c as [[] [] [] [] [] [] [] []]; try done.
Qed.

Lemma parseInt_ws c x : Js.is_ws c = true → Js.parseInt (String c x) = Js.parseInt x.
Proof. intros Hws. unfold Js.parseInt. simpl. by rewrite Hws. Qed.

Lemma parseInt_upto_eq v : Js.parseInt (upto_eq v) = Js.parseInt v.
Proof.
  induction v as [|c v IH]; [done|]. simpl.
  destruct (Ascii.eqb_spec c "=") as [->|Hne]; [done|].
  destruct (Js.is_ws c) eqn:Hws; [by rewrite !parseInt_ws|].
  destruct (Ascii.eqb_spec c "-") as [->|Hm].
  { unfold Js.parseInt. simpl. by rewrite digits_upto_eq. }
  destruct (Ascii.eqb_spec c "+") as [->|Hp].
  { unfold Js.parseInt. simpl. by rewrite digits_upto_eq. }
  rewrite !parseInt_plain by done. simpl.
  destruct (Js.is_digit c); [apply digits_upto_eq|done].
Qed.

(** The value read by [parseArgs] is [parseInt] of everything after the
    flag's "=". *)
Lemma parseInt_field_split v :
  Js.parseInt_field (Js.split_eq v !! 0) = Js.parseInt v.
Proof. rewrite split_eq_head. apply parseInt_upto_eq. Qed.

(** *** Decimal numerals *)

Lemma digits_uint d acc :
  Js.digits (Some (Z.of_nat acc)) (NilEmpty.string_of_uint d)
  = Some (Z.of_nat (Nat.of_uint_acc d acc)).
Proof.
  revert acc. induction d; intros acc; simpl; [done|..];
    (etrans; [|apply IHd]); do 2 f_equal;
    rewrite Nat.tail_mul_spec; unfold Js.digit_val; simpl; lia.
Qed.

Lemma parseInt_decimal n : Js.parseInt (decimal n) = Some (Z.of_nat n).
Proof.
  unfold decimal. rewrite <- (Unsigned.of_to n) at 2.
  unfold Nat.of_uint. rewrite <- (digits_uint (Nat.to_uint n) 0).
  assert (Nat.to_uint n ≠ Decimal.Nil) as Hnil.
  { rewrite <- (Unsigned.of_to n), Unsigned.to_of. unfold Decimal.unorm.
    by destruct (Decimal.nzhead _). }
  destruct (Nat.to_uint n); done.
Qed.

(** *** Flags of [parseArgs] *)

Lemma step_count_other args a :
  Js.startsWith "--count=" a = false →
  Cli.count (Cli.step args a) = Cli.count args.
Proof.
  intros Ha. unfold Cli.step. rewrite Ha.
  destruct (_ || _); [done|]. destruct (String.eqb a "--json"); [done|].
  by destruct (Js.startsWith "--max-pages=" a).
Qed.

Lemma step_maxPages_other args a :
  Js.startsWith "--max-pages=" a = false →
  Cli.maxPages (Cli.step args a) = Cli.maxPages args.
Proof.
  intros Ha. unfold Cli.step. rewrite Ha.
  destruct (Js.startsWith "--count=" a); [done|].
  destruct (_ || _); [done|]. by destruct (String.eqb a "--json").
Qed.

Lemma foldl_count_other args l :
  Forall (λ a, Js.startsWith "--count=" a = false) l →
  Cli.count (foldl Cli.step args l) = Cli.count args.
Proof.
  intros Hl. revert args. induction Hl as [|a l Ha _ IH]; intros args; [done|].
  simpl. by rewrite IH, step_count_other.
Qed.

Lemma foldl_maxPages_other args l :
  Forall (λ a, Js.startsWith "--max-pages=" a = false) l →
  Cli.maxPages (foldl Cli.step args l) = Cli.maxPages args.
Proof.
  intros Hl. revert args. induction Hl as [|a l Ha _ IH]; intros args; [done|].
  simpl. by rewrite IH, step_maxPages_other.
Qed.

Lemma step_head args a :
  Cli.head (Cli.step args a) = Cli.head args || Cli.is_head_flag a.
Proof.
  unfold Cli.step, Cli.is_head_flag.
  destruct (String.eqb_spec a "--head") as [->|H1];
    [simpl; by rewrite orb_true_r|].
  destruct (String.eqb_spec a "--headed") as [->|H2];
    [simpl; by rewrite orb_true_r|].
  cbn [orb]. rewrite orb_false_r.
  destruct (Js.startsWith "--count=" a); [done|].
  destruct (String.eqb a "--json"); [done|].
  by destruct (Js.startsWith "--max-pages=" a).
Qed.

Lemma step_json args a :
  Cli.json (Cli.step args a) = Cli.json args || String.eqb a "--json".
Proof.
  unfold Cli.step.
  destruct (String.eqb_spec a "--json") as [->|H1];
    [simpl; by rewrite orb_true_r|].
  rewrite orb_false_r.
  destruct (Js.startsWith "--count=" a); [done|].
  destruct (_ || _); [done|].
  by destruct (Js.startsWith "--max-pages=" a).
Qed.

Lemma foldl_head args l :
  Cli.head (foldl Cli.step args l) = Cli.head args || existsb Cli.is_head_flag l.
Proof.
  revert args. induction l as [|a l IH]; intros args; simpl;
    [by rewrite orb_false_r|].
  by rewrite IH, step_head, orb_assoc.
Qed.

Lemma foldl_json args l :
  Cli.json (foldl Cli.step args l)
  = Cli.json args || existsb (λ a, String.eqb a "--json") l.
Proof.
  revert args. induction l as [|a l IH]; intros args; simpl;
    [by rewrite orb_false_r|].
  by rewrite IH, step_json, orb_assoc.
Qed.

(** ** Facts about [next_url] *)

Lemma next_url_absolute h : Js.startsWith "http" (next_url h) = true.
Proof.
  unfold next_url. destruct (Js.startsWith "http" h) eqn:Hh; [done|].
  reflexivity.
Qed.

Lemma next_url_relative h :
  Js.startsWith "http" h = false → Js.startsWith "/" h = false →
  next_url h = BASE +:+ "/" +:+ h.
Proof.
  intros Hh Hs. unfold next_url. rewrite Hh.
  destruct h as [|c h]; [done|].
  destruct c as [[] [] [] [] [] [] [] []]; done.
Qed.

(** ** Facts about [trim] *)

Lemma trimStart_head s :
  match Js.trimStart s with
  | EmptyString => True
  | String c _ => Js.is_ws c = false
  end.
Proof.
  induction s as [|c s IH]; simpl; [done|].
  by destruct (Js.is_ws c) eqn:Hc.
Qed.

Lemma trimEnd_idem s : Js.trimEnd (Js.trimEnd s) = Js.trimEnd s.
Proof.
  induction s as [|c s IH]; simpl; [done|].
  destruct (Js.trimEnd s) as [|c' r] eqn:Hr.
  - destruct (Js.is_ws c) eqn:Hc; simpl; [done|by rewrite Hc].
  - simpl in *. by rewrite IH.
Qed.

(** A trimmed string has no white space at either end. *)
Lemma trim_clean s :
  Js.trimStart (Js.trim s) = Js.trim s ∧ Js.trimEnd (Js.trim s) = Js.trim s.
Proof.
  unfold Js.trim. split; [|apply trimEnd_idem].
  pose proof (trimStart_head s) as Hh.
  destruct (Js.trimStart s) as [|c x]; [done|]. simpl.
  destruct (Js.trimEnd x); rewrite ?Hh; simpl; by rewrite Hh.
Qed.

Lemma trim_idem s : Js.trim (Js.trim s) = Js.trim s.
Proof.
  destruct (trim_clean s) as [H1 H2]. unfold Js.trim at 1. by rewrite H1, H2.
Qed.

(** ** Facts about the extraction *)

Lemma truthy_true s : Js.truthy s = true ↔ s ≠ "".
Proof. by destruct s. Qed.

Lemma or_else_empty x : Js.or_else x "" = default "" x.
Proof. destruct x as [[|c s]|]; done. Qed.

Lemma row_entry_spec tr it :
  row_entry tr = Some it ↔
    (raw_id tr ≠ "" ∧ Js.trim (raw_title tr) ≠ "" ∧ kept_timestamp tr ≠ "")
    ∧ it = {| id := raw_id tr; title := Js.trim (raw_title tr);
              iso := kept_timestamp tr |}.
Proof.
  unfold row_entry. rewrite !or_else_empty. fold (raw_id tr).
  assert (match row_titleEl tr with Some t => Js.trim t | None => "" end
          = Js.trim (raw_title tr)) as -> by (unfold raw_title; by destruct (row_titleEl tr)).
  assert ((if Js.truthy match row_ageEl tr with
                        | Some a => Js.or_else (age_title a) ""
                        | None => ""
                        end
           then match row_ageEl tr with
                | Some a => Js.or_else (age_title a) ""
                | None => ""
                end
           else match row_ageEl tr with
                | Some a => Js.or_else (Some (Js.trim (age_text a))) ""
                | None => ""
                end) = kept_timestamp tr) as ->.
  { unfold kept_timestamp. destruct (row_ageEl tr) as [a|]; [|done].
    rewrite !or_else_empty. simpl.
    destruct (age_title a) as [t|]; simpl; [by destruct (Js.truthy t) eqn:?|done]. }
  rewrite <- !truthy_true.
  destruct (Js.truthy (raw_id tr)), (Js.truthy (Js.trim (raw_title tr))),
    (Js.truthy (kept_timestamp tr)); simpl; naive_solver.
Qed.

Lemma extract_length d : length (items (extract d)) ≤ length (rows d).
Proof.
  unfold extract. simpl. induction (rows d) as [|tr l IH]; [done|].
  change (omap row_entry (tr :: l))
    with (match row_entry tr with
          | Some y => y :: omap row_entry l
          | None => omap row_entry l
          end).
  destruct (row_entry tr); simpl in *; lia.
Qed.

Lemma extract_items d it :
  it ∈ items (extract d) ↔ ∃ tr, tr ∈ rows d ∧ row_entry tr = Some it.
Proof. unfold extract. simpl. apply list_elem_of_omap. Qed.

Lemma extract_order d :
  (id <$> items (extract d)) `sublist_of` (raw_id <$> rows d).
Proof.
  unfold extract. simpl. induction (rows d) as [|tr l IH]; [done|].
  change (omap row_entry (tr :: l))
    with (match row_entry tr with
          | Some y => y :: omap row_entry l
          | None => omap row_entry l
          end).
  rewrite fmap_cons. destruct (row_entry tr) as [it|] eqn:Htr.
  - apply row_entry_spec in Htr as [_ ->]. rewrite fmap_cons. simpl.
    by apply sublist_skip.
  - by apply sublist_cons.
Qed.

(** ** Facts about [fresh] *)

Lemma fresh_app X l1 l2 :
  fresh X (l1 ++ l2) = fresh X l1 ++ fresh (ids (fresh X l1) ∪ X) l2.
Proof.
  revert X. induction l1 as [|it l1 IH]; intros X; simpl.
  - unfold ids. simpl. by rewrite (left_id_L ∅ (∪)).
  - case_bool_decide as Hin; [apply IH|].
    rewrite IH. simpl. do 3 f_equal.
    unfold ids. rewrite fmap_cons, list_to_set_cons. set_solver.
Qed.

Lemma fresh_not_in X l it : it ∈ fresh X l → id it ∉ X.
Proof.
  revert X. induction l as [|a l IH]; intros X; simpl; [by intros ?%elem_of_nil|].
  case_bool_decide as Hin.
  - apply IH.
  - intros [->|Hit%IH]%elem_of_cons; [done|]. set_solver.
Qed.

Lemma fresh_NoDup X l : NoDup (id <$> fresh X l).
Proof.
  revert X. induction l as [|a l IH]; intros X; simpl; [constructor|].
  case_bool_decide as Hin; [apply IH|].
  rewrite fmap_cons. constructor; [|apply IH].
  intros (it & Heq & Hit%fresh_not_in)%list_elem_of_fmap. set_solver.
Qed.

Lemma fresh_sublist X l : sublist (fresh X l) l.
Proof.
  revert X. induction l as [|a l IH]; intros X; simpl; [constructor|].
  case_bool_decide; [apply sublist_cons|apply sublist_skip]; apply IH.
Qed.

Lemma ids_app l1 l2 : ids (l1 ++ l2) = ids l1 ∪ ids l2.
Proof. unfold ids. by rewrite fmap_app, list_to_set_app_L. Qed.

Lemma size_ids l : NoDup (id <$> l) → size (ids l) = length l.
Proof. intros Hnd. unfold ids. by rewrite size_list_to_set, length_fmap. Qed.


(** ** Facts about traces *)

Lemma replay_snoc t e : replay (t ++ [e]) = apply_event (replay t) e.
Proof. unfold replay. by rewrite foldl_app. Qed.

Lemma prefix_snoc {A} (t' t : list A) e :
  t' `prefix_of` t ++ [e] → t' `prefix_of` t ∨ t' = t ++ [e].
Proof.
  intros [k Hk]. destruct (decide (k = [])) as [->|Hne].
  - right. by rewrite app_nil_r in Hk.
  - left. destruct (exists_last Hne) as (k' & x & ->).
    rewrite app_assoc in Hk. apply app_inj_tail in Hk as [-> _].
    by exists k'.
Qed.

Lemma tidy_dedup_inv p : tidy p → dedup_inv p.
Proof.
  intros [Hnd Hs]. split_and!; [|intros it Hit|done].
  - rewrite Hs, size_ids by done. lia.
  - rewrite Hs. unfold ids. apply elem_of_list_to_set, list_elem_of_fmap. eauto.
Qed.

Lemma replay_pages_mono t k : sn_pages (replay t) ≤ sn_pages (replay (t ++ k)).
Proof.
  induction k as [|e k IH] using rev_ind; [by rewrite app_nil_r|].
  rewrite app_assoc, replay_snoc. etrans; [exact IH|].
  destruct e; simpl; lia.
Qed.

Lemma count_app f t1 t2 : count f (t1 ++ t2) = count f t1 + count f t2.
Proof. induction t1 as [|e t1 IH]; simpl; [done|]. rewrite IH. lia. Qed.

Lemma below_cap_snoc want t e :
  below_cap want t → length (sn_collected (replay t)) < want →
  below_cap want (t ++ [e]).
Proof.
  intros Hb Ht t' [Hp| ->]%prefix_snoc Hne; [|done].
  destruct (decide (t' = t)) as [->|Hne']; [done|by apply Hb].
Qed.

Lemma below_cap_quiet want t :
  below_cap want t → length (sn_collected (replay t)) < want →
  quiet_after_cap want t.
Proof.
  intros Hb Ht t1 t2 -> Hcap.
  destruct (decide (t1 = t1 ++ t2)) as [Heq|Hne].
  - rewrite <- Heq in Ht. lia.
  - specialize (Hb t1 (prefix_app_r t1 t1 t2 (reflexivity _)) Hne). lia.
Qed.

Lemma below_cap_quiet_pages want t :
  below_cap want t → quiet_after_cap want (t ++ [EvPages]).
Proof.
  intros Hb t1 t2 Heq Hcap.
  assert (t1 `prefix_of` t ++ [EvPages]) as [Hp|Hp]%prefix_snoc
    by (exists t2; done).
  - destruct (decide (t1 = t)) as [->|Hne].
    + apply app_inv_head in Heq as <-. done.
    + specialize (Hb t1 Hp Hne). lia.
  - rewrite Hp in Heq. rewrite <- (app_nil_r (t ++ [EvPages])) in Heq at 1.
    apply app_inv_head in Heq as <-. done.
Qed.

Lemma replay_mono t k :
  sn_collected (replay t) `prefix_of` sn_collected (replay (t ++ k))
  ∧ sn_seen (replay t) ⊆ sn_seen (replay (t ++ k))
  ∧ sn_pages (replay t) ≤ sn_pages (replay (t ++ k)).
Proof.
  induction k as [|e k (IHc & IHs & IHp)] using rev_ind;
    [by rewrite app_nil_r|].
  rewrite app_assoc, replay_snoc.
  destruct e; simpl; split_and!; try done; try lia.
  - set_solver.
  - by apply prefix_app_r.
Qed.

Lemma prefix_take_mono {A} (l1 l2 : list A) n :
  l1 `prefix_of` l2 → take n l1 `prefix_of` take n l2.
Proof.
  intros [k ->]. rewrite take_app. by apply prefix_app_r.
Qed.

Lemma prefix_concat {A} (l1 l2 : list (list A)) :
  l1 `prefix_of` l2 → concat l1 `prefix_of` concat l2.
Proof. intros [k ->]. rewrite concat_app. by apply prefix_app_r. Qed.

Lemma reload_after_empty_snoc t e :
  e ≠ EvReload → reload_after_empty t → reload_after_empty (t ++ [e]).
Proof.
  intros He Ht t1 t2 Heq. destruct (decide (t2 = [])) as [->|Hne].
  - apply app_inj_tail in Heq as [_ ->]. done.
  - destruct (exists_last Hne) as (t2' & x & ->).
    rewrite app_comm_cons, app_assoc in Heq.
    apply app_inj_tail in Heq as [-> _]. by eapply Ht.
Qed.

Lemma reload_after_empty_reload t r :
  items r = [] → reload_after_empty (t ++ [EvScrape (Some r)]) →
  reload_after_empty ((t ++ [EvScrape (Some r)]) ++ [EvReload]).
Proof.
  intros Hr Ht t1 t2 Heq. destruct (decide (t2 = [])) as [->|Hne].
  - apply app_inj_tail in Heq as [<- _]. by exists t, r.
  - destruct (exists_last Hne) as (t2' & x & ->).
    rewrite app_comm_cons, (app_assoc t1) in Heq.
    apply app_inj_tail in Heq as [Heq _]. by eapply Ht.
Qed.

Lemma below_cap_idle want t :
  below_cap want t → length (sn_collected (replay t)) < want →
  idle_after_cap want t.
Proof.
  intros Hb Ht t1 t2 -> Hcap.
  destruct (decide (t1 = t1 ++ t2)) as [Heq|Hne].
  - rewrite <- Heq in Ht. lia.
  - specialize (Hb t1 (prefix_app_r t1 t1 t2 (reflexivity _)) Hne). lia.
Qed.

Lemma below_cap_idle_pages want t :
  below_cap want t → idle_after_cap want (t ++ [EvPages]).
Proof.
  intros Hb t1 t2 Heq Hcap.
  assert (t1 `prefix_of` t ++ [EvPages]) as [Hp|Hp]%prefix_snoc
    by (exists t2; done).
  - destruct (decide (t1 = t)) as [->|Hne].
    + apply app_inv_head in Heq as <-. by right.
    + specialize (Hb t1 Hp Hne). lia.
  - rewrite Hp in Heq. rewrite <- (app_nil_r (t ++ [EvPages])) in Heq at 1.
    apply app_inv_head in Heq as <-. by left.
Qed.

(** ** Facts about the engine *)

Section EngineFacts.

Context {World : Type} `{Browser World}.
Variables want maxPages : nat.

Implicit Types (s : State World) (its : list Item).

Lemma take_short {A} (l : list A) k : length (take k l) < k → take k l = l.
Proof. rewrite length_take. intros ?. apply take_ge. lia. Qed.

(** The merge loop appends the first-seen new entries of the page, up to the
    cap, and adds exactly their ids to [seen]. *)
Lemma merge_spec its s :
  length (collected s) < want →
  let F := take (want - length (collected s)) (fresh (seen s) its) in
  collected (merge want its s) = collected s ++ F
  ∧ seen (merge want its s) = ids F ∪ seen s
  ∧ pages (merge want its s) = pages s
  ∧ url (merge want its s) = url s
  ∧ world (merge want its s) = world s.
Proof.
  revert s. induction its as [|it rest IH]; intros s Hlt; simpl.
  - rewrite take_nil, app_nil_r. unfold ids. simpl. split_and!; try done.
    by rewrite (left_id_L ∅ (∪)).
  - case_bool_decide as Hin; simpl.
    + apply (IH (log (EvHas (id it) true) s)). done.
    + destruct (want - length (collected s)) as [|k] eqn:Hk; [lia|].
      rewrite length_app. simpl.
      destruct (want <=? length (collected s) + 1) eqn:Hcap; simpl.
      * apply Nat.leb_le in Hcap. assert (k = 0) as -> by lia.
        rewrite take_0. unfold ids. simpl. split_and!; try done. set_solver.
      * apply Nat.leb_gt in Hcap.
        set (s2 := collected_push it (seen_add (id it) (log (EvHas (id it) false) s))).
        destruct (IH s2) as (Hc & Hs & Hp & Hu & Hw).
        { simpl. rewrite length_app. simpl. lia. }
        simpl in Hc, Hs, Hp, Hu, Hw. rewrite length_app in Hc, Hs. simpl in Hc, Hs.
        replace (want - (length (collected s) + 1)) with k in Hc, Hs by lia.
        rewrite Hc, Hs, Hp, Hu, Hw. rewrite <- app_assoc. simpl.
        split_and!; try done.
        unfold ids. rewrite fmap_cons, list_to_set_cons. set_solver.
Qed.

Lemma merge_length its s :
  length (collected s) < want → length (collected (merge want its s)) ≤ want.
Proof.
  intros Hlt. destruct (merge_spec its s Hlt) as (-> & _).
  rewrite length_app, length_take. lia.
Qed.

(** [fetch] performs [visit] on the current url and world and touches nothing
    else but the trace. *)
Lemma fetch_visit s :
  match visit (url s) (world s) with
  | Some (r, w) =>
      ∃ s', fetch s = (Ok r, s') ∧ world s' = w ∧ same_data s s'
  | None => ∃ s', fetch s = (Throw, s') ∧ same_data s s'
  end.
Proof.
  unfold visit, fetch, bind, page_goto, scrapePage, page_reload, scrape_of, ret.
  destruct (goto (url s) (world s)) as [w1|]; simpl;
    [|by eexists; split; [done|repeat split]].
  destruct (content (waitForSelector w1)) as [d1|]; simpl;
    [|by eexists; split; [done|repeat split]].
  destruct (length _ =? 0); simpl;
    [|by eexists; split; [done|repeat split]].
  destruct (reload (waitForSelector w1)) as [w3|]; simpl;
    [|by eexists; split; [done|repeat split]].
  destruct (content (waitForSelector w3)) as [d2|]; simpl;
    by eexists; split; [done|repeat split].
Qed.

(** The data of the state after one turn of the loop. *)
Lemma body_spec s :
  length (collected s) < want →
  match visit (url s) (world s) with
  | None => ∃ s', body want s = (Throw, s') ∧ same_data s s'
  | Some (r, w) =>
      let F := take (want - length (collected s)) (fresh (seen s) (items r)) in
      ∃ c s', body want s = (Ok c, s')
        ∧ collected s' = collected s ++ F
        ∧ seen s' = ids F ∪ seen s
        ∧ pages s' = S (pages s)
        ∧ world s' = w
        ∧ c = (if want <=? length (collected s ++ F) then Some CountReached
               else match moreHref r with
                    | Some h => if Js.truthy h then None else Some NoMore
                    | None => Some NoMore
                    end)
        ∧ (c = None → ∃ h, moreHref r = Some h ∧ Js.truthy h = true
                           ∧ url s' = next_url h)
  end.
Proof.
  intros Hlt. pose proof (fetch_visit s) as Hf. unfold body, bind.
  unfold same_data in Hf.
  destruct (visit (url s) (world s)) as [[r w]|].
  - destruct Hf as (s1 & -> & Hw & Hu & Hs & Hc & Hp). simpl.
    destruct (merge_spec (items r) s1) as (Mc & Ms & Mp & Mu & Mw); [by rewrite Hc|].
    rewrite Hc, Hs in *. rewrite Mc.
    destruct (want <=? _) eqn:Hcap.
    { eexists _, _. split; [done|]. simpl. rewrite Mc, Ms, Mp, Mw, Hp.
      split_and!; try done. }
    destruct (moreHref r) as [h|] eqn:Hm; [destruct (Js.truthy h) eqn:Ht|];
      (eexists _, _; split; [done|]); simpl; rewrite Mc, Ms, Mp, Mw, Hp;
      split_and!; try done.
    intros _. by exists h.
  - destruct Hf as (s1 & -> & Hd). by exists s1.
Qed.

(** *** The loop *)

Lemma loop_unfold fuel s :
  loop want maxPages fuel s =
    if cond want maxPages s then
      match fuel with
      | 0 => (OutOfFuel, s)
      | S fuel' =>
          match body want s with
          | (Ok None, s') => loop want maxPages fuel' s'
          | (Ok (Some e), s') => (e, s')
          | (Throw, s') => (Threw, s')
          end
      end
    else (WhileFalse, s).
Proof. by destruct fuel. Qed.

Lemma cond_true s :
  cond want maxPages s = true ↔ length (collected s) < want ∧ pages s < maxPages.
Proof. unfold cond. rewrite andb_true_iff, !Nat.ltb_lt. done. Qed.

Lemma cond_false s :
  cond want maxPages s = false ↔ want ≤ length (collected s) ∨ maxPages ≤ pages s.
Proof. unfold cond. rewrite andb_false_iff, !Nat.ltb_ge. done. Qed.

(** The output of the run is the cap-long prefix of what the source
    supplies in first-seen order. *)
Lemma loop_collected fuel s :
  maxPages - pages s ≤ fuel →
  length (collected s) ≤ want →
  collected (loop want maxPages fuel s).2 =
    take want (collected s
               ++ fresh (seen s)
                    (concat (crawl (maxPages - pages s) (url s) (world s)))).
Proof.
  revert s. induction fuel as [|fuel IH]; intros s Hfuel Hlen;
    rewrite loop_unfold; destruct (cond want maxPages s) eqn:Hc;
    try (apply cond_false in Hc; simpl; destruct Hc as [Hc|Hc];
         [ rewrite take_app_le by lia; by rewrite take_ge by lia
         | replace (maxPages - pages s) with 0 by lia; simpl;
           rewrite app_nil_r; by rewrite take_ge by lia ]).
  - apply cond_true in Hc. lia.
  - apply cond_true in Hc. destruct Hc as [Hlt Hpg].
    pose proof (body_spec s Hlt) as Hb.
    destruct (maxPages - pages s) as [|n] eqn:Hn; [lia|]. simpl.
    destruct (visit (url s) (world s)) as [[r w]|].
    + destruct Hb as (c & s' & -> & Hcol & Hseen & Hpages & Hw & Hcv & Hnext).
      simpl. rewrite fresh_app, app_assoc.
      set (F1 := fresh (seen s) (items r)) in *. clearbody F1.
      destruct (want <=? length (collected s ++ take (want - length (collected s)) F1))
        eqn:Hcap.
      * subst c. simpl. apply Nat.leb_le in Hcap.
        rewrite Hcol. rewrite length_app, length_take in Hcap.
        assert (want ≤ length (collected s ++ F1)) as Hfull
          by (rewrite length_app; lia).
        rewrite (take_app_le _ _ _ Hfull).
        rewrite take_app. by rewrite (take_ge (collected s)) by lia.
      * apply Nat.leb_gt in Hcap. rewrite length_app in Hcap.
        assert (take (want - length (collected s)) F1 = F1) as HF
          by (apply take_short; lia).
        rewrite HF in *.
        destruct c as [e|].
        -- simpl. rewrite Hcol.
           assert (match moreHref r with
                   | Some h => if Js.truthy h then crawl n (next_url h) w else []
                   | None => []
                   end = []) as ->.
           { destruct (moreHref r) as [h|]; [|done].
             by destruct (Js.truthy h). }
           simpl. rewrite app_nil_r. rewrite take_ge; [done|].
           rewrite length_app. lia.
        -- destruct (Hnext eq_refl) as (h & Hm & Ht & Hu). rewrite Hm, Ht.
           rewrite IH; [|lia|rewrite Hcol, length_app; lia].
           rewrite Hcol, Hseen, Hpages, Hw, Hu.
           by replace (maxPages - S (pages s)) with n by lia.
    + destruct Hb as (s' & -> & Hu & Hs & Hcl & Hp). simpl.
      rewrite Hcl, app_nil_r. by rewrite take_ge by lia.
Qed.

Lemma loop_exit fuel s :
  maxPages - pages s ≤ fuel →
  pages s ≤ maxPages →
  length (collected s) ≤ want →
  exit_ok want maxPages (loop want maxPages fuel s).1 (loop want maxPages fuel s).2.
Proof.
  revert s. induction fuel as [|fuel IH]; intros s Hfuel Hpg Hlen;
    rewrite loop_unfold; destruct (cond want maxPages s) eqn:Hc;
    try (apply cond_false in Hc; by repeat split).
  - apply cond_true in Hc. lia.
  - apply cond_true in Hc. destruct Hc as [Hlt Hpg'].
    pose proof (body_spec s Hlt) as Hb.
    destruct (visit (url s) (world s)) as [[r w]|].
    + destruct Hb as (c & s' & -> & Hcol & Hseen & Hpages & Hw & Hcv & Hnext).
      assert (length (collected s') ≤ want) as Hle.
      { rewrite Hcol, length_app, length_take. lia. }
      rewrite <- Hcol in Hcv.
      destruct (want <=? length (collected s')) eqn:Hcap.
      * subst c. simpl. apply Nat.leb_le in Hcap.
        repeat split; [lia|done|lia].
      * apply Nat.leb_gt in Hcap. destruct c as [e|]; simpl.
        -- assert (e = NoMore) as ->.
           { destruct (moreHref r) as [h|]; [destruct (Js.truthy h)|];
               congruence. }
           repeat split; [lia|done|done].
        -- apply IH; lia.
    + destruct Hb as (s' & -> & Hu & Hs & Hcl & Hp). simpl.
      unfold exit_ok. rewrite Hcl, Hp. repeat split; lia.
Qed.

(** More fuel than pages left changes nothing. *)
Lemma loop_fuel fuel s :
  maxPages - pages s ≤ fuel →
  loop want maxPages fuel s = loop want maxPages (maxPages - pages s) s.
Proof.
  revert s. induction fuel as [|fuel IH]; intros s Hfuel.
  - by replace (maxPages - pages s) with 0 by lia.
  - rewrite !loop_unfold. destruct (cond want maxPages s) eqn:Hc; [|done].
    apply cond_true in Hc. destruct Hc as [Hlt Hpg].
    destruct (maxPages - pages s) as [|n] eqn:Hn; [lia|].
    pose proof (body_spec s Hlt) as Hb.
    destruct (visit (url s) (world s)) as [[r w]|].
    + destruct Hb as (c & s' & -> & Hcol & Hseen & Hpages & Hw & Hcv & Hnext).
      destruct c as [e|]; [done|].
      rewrite IH by lia. by replace (maxPages - pages s') with n by lia.
    + by destruct Hb as (s' & -> & _).
Qed.

(** *** Points of a run and the dedup invariant *)

Lemma sound_log e s :
  apply_event (snap s) e = snap s → sound s → sound (log e s).
Proof.
  intros He (Hr & Ht & Hall). split_and!.
  - simpl. by rewrite replay_snoc, Hr, He.
  - done.
  - intros t [Hp| ->]%prefix_snoc; [by apply Hall|].
    rewrite replay_snoc, Hr, He. by apply tidy_dedup_inv.
Qed.

Lemma sound_set_world w s : sound s → sound (set_world w s).
Proof. done. Qed.

Lemma sound_set_url u s : sound s → sound (set_url u s).
Proof. done. Qed.

Local Ltac sound_step :=
  repeat first [apply sound_set_world | apply sound_log; [done|] ]; done.

Lemma sound_pages_incr s : sound s → sound (pages_incr s).
Proof.
  intros (Hr & Ht & Hall). split_and!.
  - simpl. by rewrite replay_snoc, Hr.
  - done.
  - simpl. intros t [Hp| ->]%prefix_snoc; [by apply Hall|].
    rewrite replay_snoc, Hr. by apply tidy_dedup_inv.
Qed.

(** [seen.add(it.id); collected.push(it)] for an unseen id: the invariant
    holds after the first call as well as after the second. *)
Lemma sound_add_push it s :
  id it ∉ seen s → sound s → sound (collected_push it (seen_add (id it) s)).
Proof.
  intros Hnew (Hr & (Hnd & Hs) & Hall). simpl in Hnd, Hs.
  assert (replay (trace s ++ [EvAdd (id it)]) =
          {| sn_seen := {[ id it ]} ∪ seen s; sn_collected := collected s;
             sn_pages := pages s |}) as Hr1 by (by rewrite replay_snoc, Hr).
  assert (tidy (snap (collected_push it (seen_add (id it) s)))) as Ht2.
  { split; simpl.
    - rewrite fmap_app. apply NoDup_app. split_and!; [done| |apply NoDup_singleton].
      intros i Hi ->%list_elem_of_singleton. apply Hnew. rewrite Hs.
      unfold ids. by apply elem_of_list_to_set.
    - rewrite ids_app, Hs. unfold ids at 3. simpl. set_solver. }
  split_and!; [|done|].
  - simpl. by rewrite replay_snoc, Hr1.
  - simpl. intros t [[Hp| ->]%prefix_snoc| ->]%prefix_snoc.
    + by apply Hall.
    + rewrite Hr1. split_and!; simpl.
      * rewrite size_union by set_solver. rewrite size_singleton, Hs.
        rewrite size_ids by done. lia.
      * intros x Hx. apply elem_of_union_r. rewrite Hs. unfold ids.
        apply elem_of_list_to_set, list_elem_of_fmap. eauto.
      * done.
    + rewrite replay_snoc, Hr1. by apply tidy_dedup_inv in Ht2.
Qed.

Lemma sound_merge its s : sound s → sound (merge want its s).
Proof.
  revert s. induction its as [|it rest IH]; intros s Hs; simpl; [done|].
  case_bool_decide as Hin.
  - apply IH. by apply sound_log.
  - assert (sound (collected_push it
                     (seen_add (id it) (log (EvHas (id it) false) s)))) as H2.
    { apply sound_add_push; [done|]. by apply sound_log. }
    revert H2. simpl. destruct (want <=? _); [done|]. apply IH.
Qed.

Lemma sound_fetch s : sound s → sound (fetch s).2.
Proof.
  intros Hs.
  unfold fetch, bind, page_goto, scrapePage, page_reload, ret.
  destruct (goto (url s) (world s)) as [w1|]; simpl; [|sound_step].
  destruct (content (waitForSelector w1)) as [d1|]; simpl; [|sound_step].
  destruct (length _ =? 0); simpl; [|sound_step].
  destruct (reload (waitForSelector w1)) as [w3|]; simpl; [|sound_step].
  destruct (content (waitForSelector w3)) as [d2|]; simpl; sound_step.
Qed.

Lemma sound_body s : sound s → sound (body want s).2.
Proof.
  intros Hs. pose proof (sound_fetch s Hs) as Hf. unfold body, bind.
  destruct (fetch s) as [[r|] s1]; simpl in *; [|done].
  assert (sound (pages_incr (merge want (items r) s1))) as H2
    by by apply sound_pages_incr, sound_merge.
  destruct (want <=? _); [done|].
  destruct (moreHref r) as [h|]; [destruct (Js.truthy h)|]; simpl; try done.
Qed.

Lemma sound_loop fuel s : sound s → sound (loop want maxPages fuel s).2.
Proof.
  revert s. induction fuel as [|fuel IH]; intros s Hs; rewrite loop_unfold;
    destruct (cond want maxPages s); try done.
  pose proof (sound_body s Hs) as Hb.
  destruct (body want s) as [[[e|]|] s']; simpl in *; auto.
Qed.

Lemma sound_init (w : World) : sound (init w).
Proof.
  split_and!; [done|split; [constructor|done]|].
  intros t Ht. simpl in Ht. apply prefix_nil_inv in Ht as ->.
  apply tidy_dedup_inv. split; [constructor|done].
Qed.

(** *** The shape of the trace *)

Lemma merge_trace its s :
  ∃ v, trace (merge want its s) = trace s ++ v
       ∧ Forall (λ e, is_container e = true) v.
Proof.
  revert s. induction its as [|it rest IH]; intros s; simpl.
  - exists []. by rewrite app_nil_r.
  - case_bool_decide as Hin.
    + destruct (IH (log (EvHas (id it) true) s)) as (v & -> & Hv).
      exists (EvHas (id it) true :: v). simpl. rewrite <- app_assoc.
      split; [done|by constructor].
    + set (s2 := collected_push it (seen_add (id it) (log (EvHas (id it) false) s))).
      assert (trace s2 = trace s ++ [EvHas (id it) false; EvAdd (id it); EvPush it])
        as Hs2 by (simpl; by rewrite <- !app_assoc).
      destruct (want <=? _).
      * eexists. split; [exact Hs2|]. by repeat constructor.
      * destruct (IH s2) as (v & -> & Hv). rewrite Hs2, <- app_assoc.
        eexists. split; [done|]. by repeat constructor.
Qed.

Lemma count_container f v :
  (∀ e, is_container e = true → f e = false) →
  Forall (λ e, is_container e = true) v → count f v = 0.
Proof.
  intros Hf. induction 1 as [|e v He _ IH]; simpl; [done|].
  by rewrite (Hf e He), IH.
Qed.

Local Ltac fetch_case :=
  eexists; rewrite <- ?app_assoc; split; [reflexivity|simpl; lia].

Lemma fetch_trace s :
  ∃ rest, trace (fetch s).2 = trace s ++ EvGoto (url s) :: rest
          ∧ count is_goto rest = 0
          ∧ count is_reload rest ≤ 1
          ∧ count is_pages rest = 0.
Proof.
  unfold fetch, bind, page_goto, scrapePage, page_reload, ret.
  destruct (goto (url s) (world s)) as [w1|]; simpl; [|fetch_case].
  destruct (content (waitForSelector w1)) as [d1|]; simpl; [|fetch_case].
  destruct (length _ =? 0); simpl; [|fetch_case].
  destruct (reload (waitForSelector w1)) as [w3|]; simpl; [|fetch_case].
  destruct (content (waitForSelector w3)) as [d2|]; simpl; fetch_case.
Qed.

(** One turn of the loop is one page visit: one [goto], at most one reload,
    and one increment of [pages] unless a call threw. *)
Lemma body_trace s :
  ∃ v, trace (body want s).2 = trace s ++ v
       ∧ visit_ok (if (body want s).1 is Ok _ then true else false) v.
Proof.
  destruct (fetch_trace s) as (rest & Ht & Hg & Hr & Hp).
  unfold body, bind. destruct (fetch s) as [[r|] s1]; simpl in *.
  - destruct (merge_trace (items r) s1) as (v & Hm & Hv).
    exists (EvGoto (url s) :: rest ++ v ++ [EvPages]).
    assert (trace (pages_incr (merge want (items r) s1)) =
            trace s ++ EvGoto (url s) :: rest ++ v ++ [EvPages]) as Hall.
    { simpl. rewrite Hm, Ht. rewrite <- !app_assoc. done. }
    assert (visit_ok true (EvGoto (url s) :: rest ++ v ++ [EvPages])) as Hok.
    { split_and!.
      - eexists _, _. split; [done|]. rewrite !count_app, Hg.
        rewrite (count_container is_goto v); [done| |done]. by intros [].
      - simpl. rewrite !count_app.
        rewrite (count_container is_reload v); [simpl; lia| |done]. by intros [].
      - simpl. rewrite !count_app, Hp.
        rewrite (count_container is_pages v); [done| |done]. by intros []. }
    destruct (want <=? _); [done|].
    destruct (moreHref r) as [h|]; [destruct (Js.truthy h)|]; done.
  - exists (EvGoto (url s) :: rest). split; [done|]. split_and!; try done.
    by eexists _, _.
Qed.

Lemma loop_trace fuel s :
  ∃ visits aborted,
    trace (loop want maxPages fuel s).2 = trace s ++ concat visits ++ aborted
    ∧ Forall (visit_ok true) visits
    ∧ pages (loop want maxPages fuel s).2 = pages s + length visits
    ∧ (if (loop want maxPages fuel s).1 is Threw
       then visit_ok false aborted else aborted = []).
Proof.
  revert s. induction fuel as [|fuel IH]; intros s; rewrite loop_unfold;
    destruct (cond want maxPages s) eqn:Hc;
    try (exists [], []; simpl; rewrite app_nil_r; split_and!; [done..|lia|done]).
  destruct (body_trace s) as (v & Hv & Hok).
  assert (((body want s).1 ≠ Throw → pages (body want s).2 = S (pages s))
          ∧ (body want s).1 ≠ Ok (Some Threw)
          ∧ ((body want s).1 = Throw → pages (body want s).2 = pages s))
    as (Hpg & Hne & Hth).
  { apply cond_true in Hc as [Hlt _]. pose proof (body_spec s Hlt) as Hb.
    destruct (visit (url s) (world s)) as [[r w]|].
    - destruct Hb as (c & s' & -> & _ & _ & Hp & _ & -> & _).
      split_and!; [done| |done].
      simpl. destruct (want <=? _); [done|].
      destruct (moreHref r) as [h|]; [destruct (Js.truthy h)|]; done.
    - by destruct Hb as (s' & -> & _ & _ & _ & Hp). }
  destruct (body want s) as [[[e|]|] s']; simpl in *.
  - exists [v], []. simpl. rewrite !app_nil_r. rewrite Hpg by done.
    split_and!; [done|by constructor|lia|by destruct e].
  - destruct (IH s') as (vs & ab & Ht & Hvs & Hp & Hab).
    specialize (Hpg ltac:(done)).
    exists (v :: vs), ab. simpl. rewrite Ht, Hv, Hp, Hpg.
    rewrite <- !app_assoc. split_and!; [done|by constructor|clear; lia|done].
  - exists [], v. simpl. rewrite Hth by done.
    split_and!; [done|done|clear; lia|done].
Qed.

(** *** A page that stays empty after the reload *)

Lemma state_eq s1 s2 :
  url s1 = url s2 → world s1 = world s2 → seen s1 = seen s2 →
  collected s1 = collected s2 → pages s1 = pages s2 → trace s1 = trace s2 →
  s1 = s2.
Proof. destruct s1, s2; simpl; by intros -> -> -> -> -> ->. Qed.

Lemma body_empty_twice s r1 r2 w' :
  length (collected s) < want →
  empty_twice (url s) (world s) r1 r2 w' →
  let s' := {| url := url s; world := w'; seen := seen s;
               collected := collected s; pages := S (pages s);
               trace := trace s ++ [EvGoto (url s); EvScrape (Some r1);
                                    EvReload; EvScrape (Some r2); EvPages] |} in
  body want s =
    match moreHref r2 with
    | Some h => if Js.truthy h then (Ok None, set_url (next_url h) s')
                else (Ok (Some NoMore), s')
    | None => (Ok (Some NoMore), s')
    end.
Proof.
  intros Hlt (w1 & d1 & w2 & d2 & Hg & Hc1 & -> & Hi1 & Hr & Hc2 & -> & Hi2 & ->).
  unfold body, fetch, bind, page_goto, scrapePage, page_reload, ret.
  rewrite Hg. cbn. rewrite Hc1, Hi1. cbn. rewrite Hr. cbn.
  rewrite Hc2, Hi2. cbn.
  apply Nat.leb_gt in Hlt. rewrite Hlt.
  destruct (moreHref (extract d2)) as [h|]; [destruct (Js.truthy h)|];
    f_equal; apply state_eq; simpl; try done; by rewrite <- !app_assoc.
Qed.

Lemma loop_trace_prefix fuel s :
  trace s `prefix_of` trace (loop want maxPages fuel s).2.
Proof.
  destruct (loop_trace fuel s) as (vs & ab & -> & _). by eexists.
Qed.

Lemma loop_first_goto fuel s :
  cond want maxPages s = true →
  (trace s ++ [EvGoto (url s)])
    `prefix_of` trace (loop want maxPages (S fuel) s).2.
Proof.
  intros Hc. rewrite loop_unfold, Hc.
  destruct (fetch_trace s) as (rest & Hf & _).
  destruct (merge_trace (items (match (fetch s).1 with Ok r => r | Throw => mkScrape [] None end))
              (fetch s).2) as (v & Hm & _).
  assert (trace s ++ [EvGoto (url s)] `prefix_of` trace (body want s).2) as Hb.
  { unfold body, bind. destruct (fetch s) as [[r|] s1]; simpl in *.
    - rewrite Hf in Hm.
      assert (trace s ++ [EvGoto (url s)]
                `prefix_of` trace (pages_incr (merge want (items r) s1))) as Hp.
      { simpl. rewrite Hm. exists (rest ++ v ++ [EvPages]).
        by rewrite <- !app_assoc. }
      destruct (want <=? _); [done|].
      destruct (moreHref r) as [h|]; [destruct (Js.truthy h)|]; done.
    - rewrite Hf. exists rest. by rewrite <- app_assoc. }
  destruct (body want s) as [[[e|]|] s']; simpl in *; try done.
  etrans; [exact Hb|apply loop_trace_prefix].
Qed.

(** *** Where the entries come from *)

Lemma visit_extract u (w w' : World) r :
  visit u w = Some (r, w') → ∃ d, r = extract d.
Proof.
  unfold visit, scrape_of. intros Hv.
  destruct (goto u w) as [w1|]; [|done].
  destruct (content (waitForSelector w1)) as [d1|]; [|done].
  destruct (length _ =? 0).
  - destruct (reload (waitForSelector w1)) as [w3|]; [|done].
    destruct (content (waitForSelector w3)) as [d2|]; [|done].
    exists d2. congruence.
  - exists d1. congruence.
Qed.

Lemma crawl_items n u (w : World) it :
  it ∈ concat (crawl n u w) → ∃ d, it ∈ items (extract d).
Proof.
  revert u w. induction n as [|n IH]; intros u w; simpl;
    [by intros ?%elem_of_nil|].
  destruct (visit u w) as [[r w']|] eqn:Hv; [|by intros ?%elem_of_nil].
  apply visit_extract in Hv as [d Hd]. simpl.
  intros [Hit|Hit]%elem_of_app; [exists d; by subst r|].
  destruct (moreHref r) as [h|]; [|by apply elem_of_nil in Hit].
  destruct (Js.truthy h); [by eapply IH|by apply elem_of_nil in Hit].
Qed.

(** *** Nothing grows after the cap *)

Lemma open_log e s :
  apply_event (snap s) e = snap s → open_run want s → open_run want (log e s).
Proof.
  intros He (Hs & Hb & Hlt). split_and!; [by apply sound_log| |done].
  simpl. apply below_cap_snoc; [done|]. destruct Hs as (-> & _). done.
Qed.

Lemma open_set_world w s : open_run want s → open_run want (set_world w s).
Proof. done. Qed.

Local Ltac open_step :=
  repeat first [apply open_set_world | apply open_log; [done|] ]; done.

Lemma open_fetch s : open_run want s → open_run want (fetch s).2.
Proof.
  intros Hs.
  unfold fetch, bind, page_goto, scrapePage, page_reload, ret.
  destruct (goto (url s) (world s)) as [w1|]; simpl; [|open_step].
  destruct (content (waitForSelector w1)) as [d1|]; simpl; [|open_step].
  destruct (length _ =? 0); simpl; [|open_step].
  destruct (reload (waitForSelector w1)) as [w3|]; simpl; [|open_step].
  destruct (content (waitForSelector w3)) as [d2|]; simpl; open_step.
Qed.

Lemma merge_below its s :
  open_run want s → below_cap want (trace (merge want its s)).
Proof.
  revert s. induction its as [|it rest IH]; intros s Ho; simpl;
    [by destruct Ho as (_ & ? & _)|].
  case_bool_decide as Hin.
  - apply IH. by apply open_log.
  - pose proof (open_log (EvHas (id it) false) s eq_refl Ho) as (Hs1 & Hb1 & Hlt1).
    set (s1 := log (EvHas (id it) false) s) in *.
    pose proof (sound_add_push it s1 Hin Hs1) as Hs2.
    assert (collected s1 = collected s) as Hcs by done. clearbody s1.
    assert (below_cap want (trace (collected_push it (seen_add (id it) s1)))) as Hb2.
    { simpl. destruct Hs1 as (Hr1 & _).
      apply below_cap_snoc; [apply below_cap_snoc; [done|by rewrite Hr1]|].
      by rewrite replay_snoc, Hr1. }
    destruct (want <=? _) eqn:Hcap; [done|].
    apply Nat.leb_gt in Hcap. apply IH. split_and!; [done..|].
    simpl. by rewrite Hcs.
Qed.

Lemma loop_quiet fuel s :
  sound s → below_cap want (trace s) →
  length (collected s) < want ∨ trace s = [] →
  quiet_after_cap want (trace (loop want maxPages fuel s).2).
Proof.
  assert (∀ s, sound s → below_cap want (trace s) →
               length (collected s) < want ∨ trace s = [] →
               quiet_after_cap want (trace s)) as Hstop.
  { intros s0 (Hr & _) Hb [Hlt| Hnil].
    - apply below_cap_quiet; [done|by rewrite Hr].
    - rewrite Hnil. intros t1 t2 Heq _.
      symmetry in Heq. by apply app_eq_nil in Heq as [_ ->]. }
  revert s. induction fuel as [|fuel IH]; intros s Hs Hb Hor;
    rewrite loop_unfold; destruct (cond want maxPages s) eqn:Hc;
    try by apply Hstop.
  apply cond_true in Hc as [Hlt _].
  assert (open_run want s) as Ho by done.
  pose proof (open_fetch s Ho) as Hf. unfold body, bind.
  destruct (fetch s) as [[r|] s1]; simpl in *;
    [|by apply Hstop; [apply Hf..|left; apply Hf]].
  pose proof (merge_below (items r) s1 Hf) as Hbm.
  pose proof (sound_merge (items r) s1 (proj1 Hf)) as Hsm.
  set (sm := merge want (items r) s1) in *.
  destruct (want <=? length (collected sm)) eqn:Hcap.
  - simpl. by apply below_cap_quiet_pages.
  - apply Nat.leb_gt in Hcap.
    assert (open_run want (pages_incr sm)) as (Hs2 & Hb2 & Hlt2).
    { split_and!; [by apply sound_pages_incr| |done].
      simpl. apply below_cap_snoc; [done|]. by destruct Hsm as (-> & _). }
    destruct (moreHref r) as [h|]; [destruct (Js.truthy h)|]; simpl.
    + apply IH; [done|done|by left].
    + apply (Hstop (pages_incr sm)); [done|done|by left].
    + apply (Hstop (pages_incr sm)); [done|done|by left].
Qed.

(** *** The urls visited *)

Lemma count_zero_Forall (f : Event → bool) (P : Event → Prop) t :
  (∀ e, f e = false → P e) → count f t = 0 → Forall P t.
Proof.
  intros Hf. induction t as [|e t IH]; simpl; [constructor|].
  destruct (f e) eqn:He; [lia|]. intros Ht. constructor; auto.
Qed.

Lemma body_trace_url s :
  ∃ rest, trace (body want s).2 = trace s ++ EvGoto (url s) :: rest
          ∧ count is_goto rest = 0.
Proof.
  destruct (fetch_trace s) as (rest & Ht & Hg & _ & _).
  unfold body, bind. destruct (fetch s) as [[r|] s1]; simpl in *;
    [|by exists rest].
  destruct (merge_trace (items r) s1) as (v & Hm & Hv).
  assert (trace (pages_incr (merge want (items r) s1)) =
          trace s ++ EvGoto (url s) :: (rest ++ v ++ [EvPages])) as Hall.
  { simpl. rewrite Hm, Ht. by rewrite <- !app_assoc. }
  assert (count is_goto (rest ++ v ++ [EvPages]) = 0) as Hc.
  { rewrite !count_app, Hg. rewrite (count_container is_goto v); [done| |done].
    by intros []. }
  exists (rest ++ v ++ [EvPages]).
  destruct (want <=? _); [done|].
  destruct (moreHref r) as [h|]; [destruct (Js.truthy h)|]; done.
Qed.

Lemma loop_urls fuel s :
  Js.startsWith "http" (url s) = true →
  Forall (λ e, ∀ u, e = EvGoto u → Js.startsWith "http" u = true) (trace s) →
  Forall (λ e, ∀ u, e = EvGoto u → Js.startsWith "http" u = true)
    (trace (loop want maxPages fuel s).2).
Proof.
  revert s. induction fuel as [|fuel IH]; intros s Hu Ht; rewrite loop_unfold;
    destruct (cond want maxPages s) eqn:Hc; try done.
  apply cond_true in Hc as [Hlt _].
  destruct (body_trace_url s) as (rest & Hb & Hg).
  assert (Forall (λ e, ∀ u, e = EvGoto u → Js.startsWith "http" u = true)
            (trace (body want s).2)) as Ht'.
  { rewrite Hb. apply Forall_app. split; [done|]. constructor.
    - by intros u [= <-].
    - eapply count_zero_Forall; [|exact Hg]. by intros []. }
  pose proof (body_spec s Hlt) as Hs.
  destruct (visit (url s) (world s)) as [[r w]|].
  - destruct Hs as (c & s' & Heq & _ & _ & _ & _ & _ & Hnext).
    rewrite Heq in *. simpl in *. destruct c as [e|]; [done|].
    destruct (Hnext eq_refl) as (h & _ & _ & Hurl).
    apply IH; [|done]. rewrite Hurl. apply next_url_absolute.
  - destruct Hs as (s' & Heq & _). rewrite Heq in *. done.
Qed.

(** *** A larger page budget *)

Lemma crawl_prefix n k u (w : World) : crawl n u w `prefix_of` crawl (n + k) u w.
Proof.
  revert u w. induction n as [|n IH]; intros u w; simpl; [apply prefix_nil|].
  destruct (visit u w) as [[r w']|]; [|done].
  apply prefix_cons.
  destruct (moreHref r) as [h|]; [|done].
  destruct (Js.truthy h); [apply IH|done].
Qed.

Lemma supply_prefix n m (w : World) :
  n ≤ m → supply n w `prefix_of` supply m w.
Proof.
  intros Hnm. unfold supply. replace m with (n + (m - n)) by lia.
  destruct (prefix_concat _ _ (crawl_prefix n (m - n) START w)) as [k ->].
  rewrite fresh_app. by apply prefix_app_r.
Qed.

(** *** Reloads and the number of calls *)

Local Ltac reload_step :=
  repeat first
    [ apply reload_after_empty_reload; [eassumption|]
    | apply reload_after_empty_snoc; [done|] ];
  done.

Lemma reload_fetch s :
  reload_after_empty (trace s) → reload_after_empty (trace (fetch s).2).
Proof.
  intros Hs.
  unfold fetch, bind, page_goto, scrapePage, page_reload, ret.
  destruct (goto (url s) (world s)) as [w1|]; simpl; [|reload_step].
  destruct (content (waitForSelector w1)) as [d1|]; simpl; [|reload_step].
  destruct (length _ =? 0) eqn:He; simpl; [|reload_step].
  apply Nat.eqb_eq, nil_length_inv in He.
  destruct (reload (waitForSelector w1)) as [w3|]; simpl; [|reload_step].
  destruct (content (waitForSelector w3)) as [d2|]; simpl; reload_step.
Qed.

Lemma reload_merge its s :
  reload_after_empty (trace s) → reload_after_empty (trace (merge want its s)).
Proof.
  revert s. induction its as [|it rest IH]; intros s Hs; simpl; [done|].
  case_bool_decide as Hin.
  - apply IH. simpl. by apply reload_after_empty_snoc.
  - assert (reload_after_empty
              (trace (collected_push it
                        (seen_add (id it) (log (EvHas (id it) false) s)))))
      as H2 by (simpl; reload_step).
    destruct (want <=? _); [done|]. by apply IH.
Qed.

Lemma reload_body s :
  reload_after_empty (trace s) → reload_after_empty (trace (body want s).2).
Proof.
  intros Hs. pose proof (reload_fetch s Hs) as Hf. unfold body, bind.
  destruct (fetch s) as [[r|] s1]; simpl in *; [|done].
  assert (reload_after_empty (trace (pages_incr (merge want (items r) s1))))
    as H2.
  { simpl. apply reload_after_empty_snoc; [done|]. by apply reload_merge. }
  destruct (want <=? _); [done|].
  destruct (moreHref r) as [h|]; [destruct (Js.truthy h)|]; done.
Qed.

Lemma reload_loop fuel s :
  reload_after_empty (trace s) →
  reload_after_empty (trace (loop want maxPages fuel s).2).
Proof.
  revert s. induction fuel as [|fuel IH]; intros s Hs; rewrite loop_unfold;
    destruct (cond want maxPages s); try done.
  pose proof (reload_body s Hs) as Hb.
  destruct (body want s) as [[[e|]|] s']; simpl in *; auto.
Qed.





(** *** No call after the cap *)

Lemma loop_idle fuel s :
  sound s → below_cap want (trace s) →
  length (collected s) < want ∨ trace s = [] →
  idle_after_cap want (trace (loop want maxPages fuel s).2).
Proof.
  assert (∀ s, sound s → below_cap want (trace s) →
               length (collected s) < want ∨ trace s = [] →
               idle_after_cap want (trace s)) as Hstop.
  { intros s0 (Hr & _) Hb [Hlt| Hnil].
    - apply below_cap_idle; [done|by rewrite Hr].
    - rewrite Hnil. intros t1 t2 Heq _.
      symmetry in Heq. apply app_eq_nil in Heq as [_ ->]. by left. }
  revert s. induction fuel as [|fuel IH]; intros s Hs Hb Hor;
    rewrite loop_unfold; destruct (cond want maxPages s) eqn:Hc;
    try by apply Hstop.
  apply cond_true in Hc as [Hlt _].
  assert (open_run want s) as Ho by done.
  pose proof (open_fetch s Ho) as Hf. unfold body, bind.
  destruct (fetch s) as [[r|] s1]; simpl in *;
    [|by apply Hstop; [apply Hf..|left; apply Hf]].
  pose proof (merge_below (items r) s1 Hf) as Hbm.
  pose proof (sound_merge (items r) s1 (proj1 Hf)) as Hsm.
  set (sm := merge want (items r) s1) in *.
  destruct (want <=? length (collected sm)) eqn:Hcap.
  - simpl. by apply below_cap_idle_pages.
  - apply Nat.leb_gt in Hcap.
    assert (open_run want (pages_incr sm)) as (Hs2 & Hb2 & Hlt2).
    { split_and!; [by apply sound_pages_incr| |done].
      simpl. apply below_cap_snoc; [done|]. by destruct Hsm as (-> & _). }
    destruct (moreHref r) as [h|]; [destruct (Js.truthy h)|]; simpl.
    + apply IH; [done|done|by left].
    + apply (Hstop (pages_incr sm)); [done|done|by left].
    + apply (Hstop (pages_incr sm)); [done|done|by left].
Qed.

(** *** The pages counted when the count is not reached *)

Lemma loop_pages fuel s :
  maxPages - pages s ≤ fuel →
  length (collected s
          ++ fresh (seen s)
               (concat (crawl (maxPages - pages s) (url s) (world s)))) < want →
  pages (loop want maxPages fuel s).2
  = pages s + length (crawl (maxPages - pages s) (url s) (world s)).
Proof.
  revert s. induction fuel as [|fuel IH]; intros s Hfuel Hshort;
    rewrite loop_unfold; destruct (cond want maxPages s) eqn:Hc.
  - apply cond_true in Hc. lia.
  - apply cond_false in Hc as [Hc|Hc].
    + rewrite length_app in Hshort. lia.
    + replace (maxPages - pages s) with 0 by lia. simpl. lia.
  - apply cond_true in Hc as [Hlt Hpg].
    pose proof (body_spec s Hlt) as Hb.
    destruct (maxPages - pages s) as [|n] eqn:Hn; [lia|]. simpl in *.
    destruct (visit (url s) (world s)) as [[r w]|].
    + destruct Hb as (c & s' & -> & Hcol & Hseen & Hpages & Hw & Hcv & Hnext).
      simpl in *. rewrite fresh_app, app_assoc in Hshort.
      set (F1 := fresh (seen s) (items r)) in *. clearbody F1.
      rewrite length_app in Hshort.
      assert (length (collected s ++ F1) < want) as Hs1 by lia.
      assert (take (want - length (collected s)) F1 = F1) as HF
        by (apply take_ge; rewrite length_app in Hs1; lia).
      rewrite HF in *.
      assert ((want <=? length (collected s ++ F1)) = false) as Hcap
        by (by apply Nat.leb_gt).
      rewrite Hcap in Hcv. destruct c as [e|]; simpl.
      * assert (match moreHref r with
                | Some h => if Js.truthy h then crawl n (next_url h) w else []
                | None => []
                end = []) as ->.
        { destruct (moreHref r) as [h|]; [|done]. by destruct (Js.truthy h). }
        simpl. lia.
      * destruct (Hnext eq_refl) as (h & Hm & Ht & Hu). rewrite Hm, Ht in *.
        rewrite IH.
        -- rewrite Hpages, Hw, Hu.
           replace (maxPages - S (pages s)) with n by lia. simpl. lia.
        -- lia.
        -- rewrite Hcol, Hseen, Hpages, Hw, Hu.
           replace (maxPages - S (pages s)) with n by lia.
           rewrite length_app. lia.
    + destruct Hb as (s' & -> & Hu & Hs & Hcl & Hp). simpl. lia.
  - apply cond_false in Hc as [Hc|Hc].
    + rewrite length_app in Hshort. lia.
    + replace (maxPages - pages s) with 0 by lia. simpl. lia.
Qed.

(** *** The whole run *)

Lemma collect_exit (w : World) :
  exit_ok want maxPages (collect want maxPages w).1 (collect want maxPages w).2.
Proof. apply loop_exit; simpl; lia. Qed.

Lemma collect_collected (w : World) :
  collected (collect want maxPages w).2 = take want (supply maxPages w).
Proof.
  unfold collect. rewrite loop_collected by (simpl; lia). simpl.
  by rewrite Nat.sub_0_r.
Qed.

Lemma collect_sound (w : World) : sound (collect want maxPages w).2.
Proof. apply sound_loop, sound_init. Qed.

(** *** Where the collected entries come from *)

(** A successful fetch returns the extraction of a document and records it
    in the trace. *)
Lemma fetch_scraped s r s1 :
  fetch s = (Ok r, s1) →
  (∃ d, r = extract d) ∧ EvScrape (Some r) ∈ trace s1.
Proof.
  unfold fetch, bind, page_goto, scrapePage, page_reload, ret.
  destruct (goto (url s) (world s)) as [w1|]; simpl; [|done].
  destruct (content (waitForSelector w1)) as [d1|]; simpl; [|done].
  destruct (length _ =? 0); simpl.
  - destruct (reload (waitForSelector w1)) as [w3|]; simpl; [|done].
    destruct (content (waitForSelector w3)) as [d2|]; simpl; [|done].
    intros [= <- <-]. split; [by exists d2|]. simpl.
    rewrite !elem_of_app, !list_elem_of_singleton. auto.
  - intros [= <- <-]. split; [by exists d1|]. simpl.
    rewrite !elem_of_app, !list_elem_of_singleton. auto.
Qed.

Lemma fetch_collected s : collected (fetch s).2 = collected s.
Proof.
  unfold fetch, bind, page_goto, scrapePage, page_reload, ret.
  destruct (goto (url s) (world s)) as [w1|]; simpl; [|done].
  destruct (content (waitForSelector w1)) as [d1|]; simpl; [|done].
  destruct (length _ =? 0); simpl; [|done].
  destruct (reload (waitForSelector w1)) as [w3|]; simpl; [|done].
  by destruct (content (waitForSelector w3)) as [d2|].
Qed.

Lemma body_from_scrapes s :
  length (collected s) < want → from_scrapes s → from_scrapes (body want s).2.
Proof.
  intros Hlt Hinv.
  destruct (fetch_trace s) as (rest & Ht & _).
  pose proof (fetch_collected s) as Hc.
  unfold body, bind. destruct (fetch s) as [[r|] s1] eqn:Hf; simpl in *.
  - destruct (fetch_scraped s r s1 Hf) as ((d & Hd) & Hin).
    assert (from_scrapes (pages_incr (merge want (items r) s1))) as H2.
    { intros it Hit. simpl in Hit.
      destruct (merge_spec (items r) s1) as (Hm & _); [by rewrite Hc|].
      destruct (merge_trace (items r) s1) as (v & Hv & _).
      rewrite Hm, Hc in Hit. simpl. rewrite Hv.
      apply elem_of_app in Hit as [Hit|Hit].
      - destruct (Hinv it Hit) as (d0 & H0 & Hit0). exists d0.
        split; [|done]. rewrite Ht, !elem_of_app. auto.
      - exists d. subst r. split; [rewrite !elem_of_app; auto|].
        eapply elem_of_sublist; [exact Hit|].
        etrans; [apply sublist_take|apply fresh_sublist]. }
    destruct (want <=? _); [done|].
    destruct (moreHref r) as [h|]; [destruct (Js.truthy h)|]; simpl; done.
  - intros it Hit. rewrite Hc in Hit.
    destruct (Hinv it Hit) as (d0 & H0 & Hit0). exists d0.
    split; [|done]. rewrite Ht, elem_of_app. auto.
Qed.

Lemma loop_from_scrapes fuel s :
  from_scrapes s → from_scrapes (loop want maxPages fuel s).2.
Proof.
  revert s. induction fuel as [|fuel IH]; intros s Hs; rewrite loop_unfold;
    destruct (cond want maxPages s) eqn:Hc; try done.
  apply cond_true in Hc as [Hlt _].
  pose proof (body_from_scrapes s Hlt Hs) as Hb.
  destruct (body want s) as [[[e|]|] s']; simpl in *; auto.
Qed.

(** Every id in [seen] at the end of a run is the id of the entry of a row
    of a page scraped in that run. *)
Lemma collect_scraped_rows (w : World) i :
  i ∈ seen (collect want maxPages w).2 →
  scraped_row_id (trace (collect want maxPages w).2) i.
Proof.
  intros Hi.
  destruct (collect_sound w) as (_ & (_ & Hs) & _).
  simpl in Hs. rewrite Hs in Hi. unfold ids in Hi.
  apply elem_of_list_to_set, list_elem_of_fmap in Hi as (it & -> & Hit).
  apply (loop_from_scrapes maxPages (init w)) in Hit as (d & Hd & Hit);
    [|by intros ? ?%elem_of_nil].
  apply extract_items in Hit as (tr & Htr & Hrow). by exists d, tr, it.
Qed.

(** The reported items are the collected entries, on both exits. *)
Lemma report_items (w : World) :
  Out.items (report_json want maxPages (collect want maxPages w)) =
    collected (collect want maxPages w).2.
Proof.
  pose proof (collect_exit w) as (_ & Hle & _). unfold report_json.
  destruct (collect want maxPages w).1; simpl; try done; by apply take_ge.
Qed.

(** Every collected entry was yielded by a row. *)
Lemma collected_from_row (w : World) it :
  it ∈ collected (collect want maxPages w).2 → ∃ tr, row_entry tr = Some it.
Proof.
  intros Hit. rewrite collect_collected in Hit.
  eapply elem_of_sublist in Hit;
    [|etrans; [apply sublist_take|apply fresh_sublist]].
  apply crawl_items in Hit as (d & Hd).
  apply extract_items in Hd as (tr & _ & Htr). by exists tr.
Qed.

Lemma count_goto_visits (visits : list (list Event)) :
  Forall (visit_ok true) visits → count is_goto (concat visits) = length visits.
Proof.
  induction 1 as [|v vs ((u & rest & -> & Hg) & _) _ IH]; simpl; [done|].
  rewrite count_app, Hg, IH. done.
Qed.

Lemma collect_gotos (w : World) :
  count is_goto (trace (collect want maxPages w).2) ≤ maxPages.
Proof.
  pose proof (collect_exit w) as (Hpg & _ & Hex).
  destruct (loop_trace maxPages (init w)) as (vs & ab & Ht & Hvs & Hp & Hab).
  unfold collect in *. rewrite Ht. simpl in *.
  rewrite count_app, count_goto_visits by done.
  destruct (loop want maxPages maxPages (init w)).1;
    try (subst ab; simpl; lia).
  destruct Hab as ((u & rest & -> & Hg) & _). simpl. rewrite Hg. lia.
Qed.

End EngineFacts.

(** ** The endless source *)

Lemma endless_body (want : nat) (s : State unit) :
  3 ≤ want → Endless.met s →
  ∃ s', body want s = (Ok None, s') ∧ Endless.met s' ∧ pages s' = S (pages s).
Proof.
  intros Hw Hmet.
  assert (length (collected s) < want) as Hlt
    by (destruct Hmet as [[-> _]|[-> _]]; simpl; lia).
  pose proof (body_spec want s Hlt) as Hb.
  assert (visit (url s) (world s) = Some (extract Endless.page, tt)) as Hv
    by (by destruct (world s)).
  rewrite Hv in Hb. destruct Hb as (c & s' & Hbody & Hc & Hs & Hp & _ & Hcv & _).
  assert (collected s' = [Endless.entry "1"; Endless.entry "2"]
          ∧ seen s' = ids [Endless.entry "1"; Endless.entry "2"]) as [Hc' Hs'].
  { destruct Hmet as [[Hc0 Hs0]|[Hc0 Hs0]]; rewrite Hc0, Hs0 in Hc, Hs.
    - assert (fresh ∅ (items (extract Endless.page))
              = [Endless.entry "1"; Endless.entry "2"]) as HF by by vm_compute.
      rewrite HF in Hc, Hs. rewrite take_ge in Hc, Hs by (simpl; lia).
      split; [done|]. rewrite Hs. set_solver.
    - assert (fresh (ids [Endless.entry "1"; Endless.entry "2"])
                (items (extract Endless.page)) = []) as HF by by vm_compute.
      rewrite HF in Hc, Hs. rewrite take_nil in Hc, Hs.
      split; [done|]. rewrite Hs. unfold ids at 1. simpl. set_solver. }
  rewrite <- Hc, Hc' in Hcv. simpl in Hcv.
  destruct (want <=? 2) eqn:Hle; [apply Nat.leb_le in Hle; lia|].
  subst c. exists s'. split_and!; [done|by right|done].
Qed.

Lemma endless_loop (want maxPages fuel : nat) (s : State unit) :
  3 ≤ want → Endless.met s → maxPages - pages s ≤ fuel → pages s ≤ maxPages →
  (loop want maxPages fuel s).1 = WhileFalse
  ∧ pages (loop want maxPages fuel s).2 = maxPages.
Proof.
  intros Hw. revert s. induction fuel as [|fuel IH]; intros s Hmet Hfuel Hpg;
    rewrite loop_unfold; destruct (cond want maxPages s) eqn:Hc.
  - apply cond_true in Hc. lia.
  - apply cond_false in Hc. split; [done|]. simpl.
    destruct Hmet as [[Hc0 _]|[Hc0 _]]; rewrite Hc0 in Hc; simpl in Hc; lia.
  - apply cond_true in Hc.
    destruct (endless_body want s Hw Hmet) as (s' & -> & Hmet' & Hp).
    apply IH; [done|lia|lia].
  - apply cond_false in Hc. split; [done|]. simpl.
    destruct Hmet as [[Hc0 _]|[Hc0 _]]; rewrite Hc0 in Hc; simpl in Hc; lia.
Qed.

(** * The properties of the specification *)

(** ** Threshold, prefix stability and order *)

(** C2. Threshold correctness: when the source supplies, within [maxPages]
    pages, at least [want] unique valid entries, the run terminates (the
    loop is left without running out of fuel) with [ok = true], exit code 0
    and exactly [want] collected entries. *)
Theorem C2_threshold_correctness {World : Type} `{Browser World}
    (want maxPages : nat) (w : World) :
  want ≤ length (supply maxPages w) →
  let r := collect want maxPages w in
  r.1 ≠ OutOfFuel
  ∧ Out.ok (report_json want maxPages r) = true
  ∧ exit_code want r = 0
  ∧ length (collected r.2) = want
  ∧ Out.collected (Out.summary (report_json want maxPages r)) = want.
Proof.
  intros Hsup r.
  assert (length (collected r.2) = want) as Hlen.
  { subst r. rewrite collect_collected, length_take. lia. }
  pose proof (collect_exit want maxPages w) as (_ & _ & Hex). fold r in Hex.
  unfold report_json, exit_code.
  destruct r.1; simpl; rewrite ?Hlen, ?Nat.leb_refl;
    try (split_and!; done); try done; lia.
Qed.

Lemma C2_threshold_correctness_witness :
  3 ≤ length (supply 5 two_pages)
  ∧ let r := collect 3 5 two_pages in
    r.1 ≠ OutOfFuel
    ∧ Out.ok (report_json 3 5 r) = true
    ∧ exit_code 3 r = 0
    ∧ length (collected r.2) = 3
    ∧ Out.collected (Out.summary (report_json 3 5 r)) = 3.
Proof.
  split; [vm_compute; lia|].
  apply (C2_threshold_correctness 3 5 two_pages). vm_compute; lia.
Defined.

(** The collected entries never outnumber the requested count. *)
Lemma collected_at_most_want {World : Type} `{Browser World}
    (want maxPages : nat) (w : World) :
  length (collected (collect want maxPages w).2) ≤ want.
Proof. by destruct (collect_exit want maxPages w) as (_ & Hle & _). Qed.

(** C4. Prefix stability: against the same source and page budget, the items
    reported for [count = 100] and for [count = 150] agree at every position
    0..99. *)
Theorem C4_prefix_stability {World : Type} `{Browser World}
    (maxPages : nat) (w : World) (i : nat) :
  i < 100 →
  Out.items (report_json 150 maxPages (collect 150 maxPages w)) !! i =
  Out.items (report_json 100 maxPages (collect 100 maxPages w)) !! i.
Proof.
  intros Hi. rewrite !report_items, !collect_collected.
  by rewrite !lookup_take_lt by lia.
Qed.

Lemma C4_prefix_stability_witness :
  Out.items (report_json 150 5 (collect 150 5 two_pages)) !! 2 =
  Out.items (report_json 100 5 (collect 100 5 two_pages)) !! 2.
Proof. apply (C4_prefix_stability 5 two_pages 2). lia. Defined.

(** The general form: a smaller count yields a prefix of the larger run. *)
Lemma prefix_stability {World : Type} `{Browser World}
    (n m maxPages : nat) (w : World) :
  n ≤ m →
  Out.items (report_json n maxPages (collect n maxPages w)) =
  take n (Out.items (report_json m maxPages (collect m maxPages w))).
Proof.
  intros Hnm. rewrite !report_items, !collect_collected.
  rewrite take_take. by rewrite Nat.min_l by done.
Qed.

(** C6. Order stability: [collected] is the stream of scraped items, page
    after page, reduced to the first occurrence of each id and cut at
    [want]; it is a subsequence of that stream, so nothing is reordered; the
    JSON items and the numbered lines list it in the same order. *)
Theorem C6_order_stability {World : Type} `{Browser World}
    (want maxPages : nat) (w : World) :
  let r := collect want maxPages w in
  let stream := concat (crawl maxPages START w) in
  collected r.2 = take want (fresh ∅ stream)
  ∧ sublist (collected r.2) stream
  ∧ Out.items (report_json want maxPages r) = collected r.2
  ∧ report_lines want r =
      (if r.1 is Threw then []
       else imap (λ i it, fmtItem (i + 1) it) (collected r.2)).
Proof.
  intros r stream.
  assert (collected r.2 = take want (fresh ∅ stream)) as Hc
    by apply collect_collected.
  split_and!; [done| |apply report_items|].
  - rewrite Hc. etrans; [apply sublist_take|apply fresh_sublist].
  - pose proof (collect_exit want maxPages w) as (_ & Hle & _). fold r in Hle.
    unfold report_lines. rewrite (take_ge (collected r.2)) by done.
    by destruct r.1.
Qed.

(** ** Invariants of the merge loop *)

(** C5. Dedup invariant: at every point of every run (every prefix [t] of
    the trace, whose replay gives the containers at that point)
    [collected.length <= seen.size], every collected entry has its id in
    [seen], and no two collected entries share an id.  The replay of the
    whole trace is the final state, which satisfies the invariant too. *)
Theorem C5_dedup_invariant {World : Type} `{Browser World}
    (want maxPages : nat) (w : World) (t : list Event) :
  let r := collect want maxPages w in
  t `prefix_of` trace r.2 →
  dedup_inv (replay t)
  ∧ replay (trace r.2) = snap r.2
  ∧ dedup_inv (snap r.2).
Proof.
  intros r Ht. destruct (collect_sound want maxPages w) as (Hr & Hty & Hall).
  split_and!; [by apply Hall|done|by apply tidy_dedup_inv].
Qed.

Lemma C5_dedup_invariant_witness :
  let r := collect 3 5 two_pages in
  let t := take 10 (trace r.2) in
  t `prefix_of` trace r.2
  ∧ dedup_inv (replay t)
  ∧ replay (trace r.2) = snap r.2
  ∧ dedup_inv (snap r.2).
Proof.
  intros r t.
  assert (t `prefix_of` trace r.2) as Ht by apply prefix_take.
  split; [done|]. by apply (C5_dedup_invariant 3 5 two_pages t).
Defined.

(** ** The soft reload *)



(** ** Termination *)

(** C9. Page budget: every run terminates (the loop is left, and any fuel of
    at least [maxPages] gives the same result); it fetches at most
    [maxPages] pages and [pages] never exceeds [maxPages], at any point; a
    run that is left by the loop condition while short of [want] has used
    the whole budget.  On the endless source, which never reaches the count,
    never lacks a next link and never fails, the run visits exactly
    [maxPages] pages, whatever [maxPages] is: nothing else bounds it. *)
Theorem C9_page_budget {World : Type} `{Browser World}
    (want maxPages : nat) (w : World) :
  let r := collect want maxPages w in
  r.1 ≠ OutOfFuel
  ∧ (∀ fuel, maxPages ≤ fuel → loop want maxPages fuel (init w) = r)
  ∧ count is_goto (trace r.2) ≤ maxPages
  ∧ (∀ t, t `prefix_of` trace r.2 → sn_pages (replay t) ≤ maxPages)
  ∧ pages r.2 ≤ maxPages
  ∧ (r.1 = WhileFalse → length (collected r.2) < want → pages r.2 = maxPages)
  ∧ (∀ want' maxPages', 3 ≤ want' →
       (collect (World:=unit) want' maxPages' tt).1 = WhileFalse
       ∧ pages (collect (World:=unit) want' maxPages' tt).2 = maxPages').
Proof.
  intros r. pose proof (collect_exit want maxPages w) as (Hpg & Hle & Hex).
  fold r in Hpg, Hle, Hex.
  split_and!.
  - intros He. by rewrite He in Hex.
  - intros fuel Hf. unfold r, collect.
    rewrite (loop_fuel want maxPages fuel) by (simpl; lia).
    simpl. by rewrite Nat.sub_0_r.
  - apply collect_gotos.
  - intros t [k Hk]. destruct (collect_sound want maxPages w) as (Hr & _).
    fold r in Hr. etrans; [apply (replay_pages_mono t k)|].
    rewrite <- Hk, Hr. done.
  - done.
  - intros He Hlt. rewrite He in Hex. lia.
  - intros want' maxPages' Hw. apply endless_loop; [done|by left|simpl; lia..].
Qed.

Lemma C9_page_budget_witness :
  let r := collect 10 2 two_pages in
  r.1 ≠ OutOfFuel ∧ count is_goto (trace r.2) ≤ 2 ∧ pages r.2 ≤ 2.
Proof.
  intros r.
  destruct (C9_page_budget 10 2 two_pages) as (H1 & _ & H3 & _ & H5 & _).
  by split_and!.
Defined.

(** The second scenario of the specification: the first page is empty at
    first and has twelve entries after the reload; one reload, one page. *)
Example soft_reload_scenario :
  let r := collect 100 15 empty_then_twelve in
  r.1 = NoMore
  ∧ count is_goto (trace r.2) = 1
  ∧ count is_reload (trace r.2) = 1
  ∧ pages r.2 = 1
  ∧ collected r.2 = twelve.
Proof. by vm_compute. Qed.

(** ** A page that stays empty after the soft reload *)

(** C1, as amended.  When the page about to be visited parses to zero entries
    and still to zero entries after the single soft reload, the visit makes
    exactly the calls goto, scrape, reload, scrape, merges nothing and
    counts one page.  The run stops there when the second scrape has no next
    link ([moreHref] null or empty) or when the page budget is used up;
    otherwise the loop goes on and the next call is the [goto] of the next
    page. *)
Theorem C1_empty_after_reload {World : Type} `{Browser World}
    (want maxPages fuel : nat) (s : State World) (r1 r2 : Scrape) (w' : World) :
  cond want maxPages s = true →
  empty_twice (url s) (world s) r1 r2 w' →
  let s' := {| url := url s; world := w'; seen := seen s;
               collected := collected s; pages := S (pages s);
               trace := trace s ++ [EvGoto (url s); EvScrape (Some r1);
                                    EvReload; EvScrape (Some r2); EvPages] |} in
  match moreHref r2 with
  | Some h =>
      if Js.truthy h then
        loop want maxPages (S fuel) s
          = loop want maxPages fuel (set_url (next_url h) s')
        ∧ (maxPages ≤ S (pages s) →
             loop want maxPages (S fuel) s = (WhileFalse, set_url (next_url h) s'))
        ∧ (S (pages s) < maxPages → 0 < fuel →
             (trace s' ++ [EvGoto (next_url h)])
               `prefix_of` trace (loop want maxPages (S fuel) s).2)
      else loop want maxPages (S fuel) s = (NoMore, s')
  | None => loop want maxPages (S fuel) s = (NoMore, s')
  end.
Proof.
  intros Hc He s'. pose proof Hc as [Hlt Hpg]%cond_true.
  pose proof (body_empty_twice want s r1 r2 w' Hlt He) as Hb. fold s' in Hb.
  rewrite (loop_unfold want maxPages (S fuel) s), Hc, Hb.
  destruct (moreHref r2) as [h|]; [|done].
  destruct (Js.truthy h); [|done].
  split_and!; [done| |].
  - intros Hmax. rewrite loop_unfold.
    assert (cond want maxPages (set_url (next_url h) s') = false) as ->
      by (apply cond_false; simpl; lia).
    done.
  - intros Hmax Hfuel. destruct fuel as [|fuel]; [lia|].
    apply (loop_first_goto want maxPages fuel (set_url (next_url h) s')).
    apply cond_true. simpl. lia.
Qed.

Lemma C1_empty_after_reload_witness :
  let s := init empty_then_more in
  let r := {| items := []; moreHref := Some "newest?next=2" |} in
  loop 1 5 5 s
  = loop 1 5 4
      {| url := "https://news.ycombinator.com/newest?next=2";
         world := {| Script.current := Some (doc_of [] (Some "newest?next=2"));
                     Script.script :=
                       [doc_of [ {| id := "a"; title := "A"; iso := "t1" |} ]
                          None] |};
         seen := ∅; collected := []; pages := 1;
         trace := [EvGoto START; EvScrape (Some r); EvReload;
                   EvScrape (Some r); EvPages] |}.
Proof.
  intros s r.
  refine (proj1 (C1_empty_after_reload 1 5 4 s r r _ _ _)); [done|].
  by eexists _, _, _, _.
Defined.

(** C1, as stated, fails: on [empty_then_more] the first page is empty before
    and after the reload, and the engine fetches a further page. *)
Lemma C1_counterexample :
  let r := collect 1 5 empty_then_more in
  let e := {| items := []; moreHref := Some "newest?next=2" |} in
  trace r.2 =
    [ EvGoto "https://news.ycombinator.com/newest";
      EvScrape (Some e); EvReload; EvScrape (Some e); EvPages;
      EvGoto "https://news.ycombinator.com/newest?next=2";
      EvScrape (Some {| items := [ {| id := "a"; title := "A"; iso := "t1" |} ];
                        moreHref := None |});
      EvHas "a" false; EvAdd "a";
      EvPush {| id := "a"; title := "A"; iso := "t1" |}; EvPages ]
  ∧ pages r.2 = 2
  ∧ ¬ stops_after_empty_reload (trace r.2).
Proof.
  intros r e.
  assert (trace r.2 =
    [ EvGoto "https://news.ycombinator.com/newest";
      EvScrape (Some e); EvReload; EvScrape (Some e); EvPages;
      EvGoto "https://news.ycombinator.com/newest?next=2";
      EvScrape (Some {| items := [ {| id := "a"; title := "A"; iso := "t1" |} ];
                        moreHref := None |});
      EvHas "a" false; EvAdd "a";
      EvPush {| id := "a"; title := "A"; iso := "t1" |}; EvPages ]) as Ht
    by by vm_compute.
  split_and!; [done|by vm_compute|].
  intros Hstop. rewrite Ht in Hstop.
  specialize (Hstop [] _ e e _ eq_refl eq_refl eq_refl). by vm_compute in Hstop.
Qed.

(** ** The number printed after [Dups:] *)

(** Once [collected.length] has reached [want], no further call is made on
    [seen] or [collected]: both stop growing at the same instant. *)
Lemma no_growth_after_cap {World : Type} `{Browser World}
    (want maxPages : nat) (w : World) :
  quiet_after_cap want (trace (collect want maxPages w).2).
Proof.
  apply loop_quiet; [apply sound_init| |by right].
  intros t Ht Hne. simpl in *. by apply prefix_nil_inv in Ht.
Qed.

(** [seen] and [collected] grow together, so the printed number is 0 on
    every run, whatever the number of duplicates met. *)
Lemma dups_always_zero {World : Type} `{Browser World}
    (want maxPages : nat) (w : World) :
  dups (collect want maxPages w).2 = 0%Z.
Proof.
  destruct (collect_sound want maxPages w) as (_ & (Hnd & Hs) & _).
  simpl in Hnd, Hs. unfold dups. rewrite Hs, size_ids by done. lia.
Qed.

(** C3, at a run that meets a duplicate before the cap.  With [want = 3] on
    [two_pages] the entry "b" of the second page is skipped as a duplicate
    ([seen.has] answers true once) before the third entry is collected; the
    entry "d" after the cap is neither looked up nor added; and the printed
    number is 0, not 1. *)
Theorem C3_dups_counter_misses_duplicates :
  let r := collect 3 5 two_pages in
  trace r.2 =
    [ EvGoto "https://news.ycombinator.com/newest";
      EvScrape (Some {| items := [ {| id := "a"; title := "A"; iso := "t1" |};
                                   {| id := "b"; title := "B"; iso := "t2" |} ];
                        moreHref := Some "newest?next=b" |});
      EvHas "a" false; EvAdd "a";
      EvPush {| id := "a"; title := "A"; iso := "t1" |};
      EvHas "b" false; EvAdd "b";
      EvPush {| id := "b"; title := "B"; iso := "t2" |};
      EvPages;
      EvGoto "https://news.ycombinator.com/newest?next=b";
      EvScrape (Some {| items := [ {| id := "b"; title := "B"; iso := "t2" |};
                                   {| id := "c"; title := "C"; iso := "t3" |};
                                   {| id := "d"; title := "D"; iso := "t4" |} ];
                        moreHref := None |});
      EvHas "b" true;
      EvHas "c" false; EvAdd "c";
      EvPush {| id := "c"; title := "C"; iso := "t3" |};
      EvPages ]
  ∧ count is_dup (trace r.2) = 1
  ∧ size (seen r.2) = 3
  ∧ length (collected r.2) = 3
  ∧ dups r.2 = 0%Z.
Proof. by vm_compute. Qed.

(** ** The page parser *)

(** C8, as amended.  The extraction, a total function, yields an entry for a
    row exactly when the id attribute is non-empty as it is (it is not
    trimmed), the title text is non-empty after trimming, and the kept
    timestamp (the title attribute of the age element as it is when
    non-empty, else its trimmed text) is non-empty; the entry carries these
    three values.  The items of a page are the entries of its rows, other
    rows leaving no item; and every id in [seen] at the end of a run is the
    id of the entry yielded by a row of a page scraped in that run: a row
    that yields no entry adds nothing to [seen]. *)
Theorem C8_valid_rows_only {World : Type} `{Browser World}
    (want maxPages : nat) (w : World) :
  (∀ tr it,
     row_entry tr = Some it ↔
       (raw_id tr ≠ "" ∧ Js.trim (raw_title tr) ≠ "" ∧ kept_timestamp tr ≠ "")
       ∧ it = {| id := raw_id tr; title := Js.trim (raw_title tr);
                 iso := kept_timestamp tr |})
  ∧ (∀ d it, it ∈ items (extract d) ↔ ∃ tr, tr ∈ rows d ∧ row_entry tr = Some it)
  ∧ (∀ d, length (items (extract d)) ≤ length (rows d))
  ∧ (∀ i, i ∈ seen (collect want maxPages w).2 →
          ∃ d tr it,
            EvScrape (Some (extract d)) ∈ trace (collect want maxPages w).2
            ∧ tr ∈ rows d ∧ row_entry tr = Some it ∧ id it = i).
Proof.
  split_and!.
  - apply row_entry_spec.
  - apply extract_items.
  - apply extract_length.
  - apply collect_scraped_rows.
Qed.

(** C8, as stated, fails: a row whose id attribute is one space yields an
    entry although its id is empty after trimming. *)
Lemma C8_counterexample :
  let tr := {| row_id := Some " "; row_titleEl := Some "Title";
               row_ageEl := Some {| age_title := Some "2024-05-01T10:00:00";
                                    age_text := "3 hours ago" |} |} in
  row_entry tr
    = Some {| id := " "; title := "Title"; iso := "2024-05-01T10:00:00" |}
  ∧ Js.trim (raw_id tr) = ""
  ∧ ¬ (is_Some (row_entry tr) ↔ nonempty_after_trim tr).
Proof.
  intros tr. split_and!; [done|done|].
  intros [Hyes _]. destruct Hyes as (Hid & _); [by eexists|]. by apply Hid.
Qed.

(** ** Command line *)

(** C10. [parseArgs] on [--count=v] and on [--max-pages=v], where [n] is
    what [parseInt] makes of the value: when it is not a number or is 0 the
    defaults 100 and 15 are returned, not the floor 1; a negative number is
    raised to 1; a number from 1 on is kept.  In particular for the values
    "0", "abc" and "-3". *)
Theorem C10_zero_and_garbage_give_defaults (v : string) :
  let n := Js.parseInt_field (Js.split_eq v !! 0) in
  let count := Cli.count (Cli.parseArgs ["node"; "index.js"; "--count=" +:+ v]) in
  let maxPages :=
    Cli.maxPages (Cli.parseArgs ["node"; "index.js"; "--max-pages=" +:+ v]) in
  (n = None ∨ n = Some 0%Z → count = 100%Z ∧ maxPages = 15%Z)
  ∧ (∀ k, n = Some k → (k < 0)%Z → count = 1%Z ∧ maxPages = 1%Z)
  ∧ (∀ k, n = Some k → (1 ≤ k)%Z → count = k ∧ maxPages = k)
  ∧ Cli.count (Cli.parseArgs ["node"; "index.js"; "--count=0"]) = 100%Z
  ∧ Cli.count (Cli.parseArgs ["node"; "index.js"; "--count=abc"]) = 100%Z
  ∧ Cli.count (Cli.parseArgs ["node"; "index.js"; "--count=-3"]) = 1%Z
  ∧ Cli.maxPages (Cli.parseArgs ["node"; "index.js"; "--max-pages=0"]) = 15%Z
  ∧ Cli.maxPages (Cli.parseArgs ["node"; "index.js"; "--max-pages=abc"]) = 15%Z
  ∧ Cli.maxPages (Cli.parseArgs ["node"; "index.js"; "--max-pages=-3"]) = 1%Z.
Proof.
  intros n count maxPages.
  assert (count = match n with
                  | None => 100%Z
                  | Some k => if (k =? 0)%Z then 100%Z
                              else if (k <? 0)%Z then 1%Z else k
                  end) as Hc.
  { unfold count, Cli.parseArgs. simpl drop. simpl foldl.
    rewrite step_count. simpl Cli.count. by apply max_or_default. }
  assert (maxPages = match n with
                     | None => 15%Z
                     | Some k => if (k =? 0)%Z then 15%Z
                                 else if (k <? 0)%Z then 1%Z else k
                     end) as Hm.
  { unfold maxPages, Cli.parseArgs. simpl drop. simpl foldl.
    rewrite step_maxPages. simpl Cli.maxPages. by apply max_or_default. }
  rewrite Hc, Hm. split_and!; try by vm_compute.
  - by intros [->| ->].
  - intros k -> Hk. destruct (k =? 0)%Z eqn:H0; [lia|].
    destruct (k <? 0)%Z eqn:H1; [done|lia].
  - intros k -> Hk. destruct (k =? 0)%Z eqn:H0; [lia|].
    destruct (k <? 0)%Z eqn:H1; [lia|done].
Qed.

Lemma C10_zero_and_garbage_give_defaults_witness :
  Cli.count (Cli.parseArgs ["node"; "index.js"; "--count= 0x"]) = 100%Z
  ∧ Cli.maxPages (Cli.parseArgs ["node"; "index.js"; "--max-pages= 0x"]) = 15%Z.
Proof.
  apply (proj1 (C10_zero_and_garbage_give_defaults " 0x")). by right.
Defined.

(** * Further properties of [index.js] *)

(** ** [parseArgs] *)

(** X1. Whatever the command line, [parseArgs] returns a count and a page
    budget of at least 1. *)
Theorem X1_parseArgs_floor (argv : list string) :
  (1 ≤ Cli.count (Cli.parseArgs argv))%Z
  ∧ (1 ≤ Cli.maxPages (Cli.parseArgs argv))%Z.
Proof. apply parseArgs_floor. Qed.

(** X2. The last [--count=] argument decides the count and the last
    [--max-pages=] argument decides the page budget, whatever comes before
    and whatever other arguments come after. *)
Theorem X2_last_value_wins (node script : string) (pre post : list string)
    (v : string) :
  (Forall (λ a, Js.startsWith "--count=" a = false) post →
   Cli.count (Cli.parseArgs (node :: script :: pre ++ ("--count=" +:+ v) :: post))
   = Z.max 1 (Js.num_or (Js.parseInt v) 100))
  ∧ (Forall (λ a, Js.startsWith "--max-pages=" a = false) post →
     Cli.maxPages
       (Cli.parseArgs (node :: script :: pre ++ ("--max-pages=" +:+ v) :: post))
     = Z.max 1 (Js.num_or (Js.parseInt v) 15)).
Proof.
  unfold Cli.parseArgs. simpl drop. rewrite !drop_0, !foldl_app.
  simpl foldl. split.
  - intros Hpost. rewrite foldl_count_other by done.
    rewrite step_count. simpl. by rewrite parseInt_field_split.
  - intros Hpost. rewrite foldl_maxPages_other by done.
    rewrite step_maxPages. simpl. by rewrite parseInt_field_split.
Qed.

Lemma X2_last_value_wins_witness :
  Cli.count
    (Cli.parseArgs ["node"; "index.js"; "--count=5"; "--count=7=9"; "--json"])
  = 7%Z.
Proof.
  refine (proj1 (X2_last_value_wins "node" "index.js" ["--count=5"] ["--json"]
                   "7=9") _).
  by repeat constructor.
Defined.

(** X3. The browser is shown exactly when [--head] or [--headed] occurs among
    the arguments after the first two, and JSON is printed exactly when
    [--json] occurs among them. *)
Theorem X3_flags (argv : list string) :
  (Cli.head (Cli.parseArgs argv) = true
   ↔ "--head" ∈ drop 2 argv ∨ "--headed" ∈ drop 2 argv)
  ∧ (Cli.json (Cli.parseArgs argv) = true ↔ "--json" ∈ drop 2 argv).
Proof.
  unfold Cli.parseArgs. rewrite foldl_head, foldl_json. simpl.
  rewrite !existsb_exists. unfold Cli.is_head_flag. split; split.
  - intros (a & Ha%list_elem_of_In & [->%String.eqb_eq| ->%String.eqb_eq]%orb_true_iff);
      [by left|by right].
  - intros [Ha|Ha]; eexists; (split; [by apply list_elem_of_In|]);
      by rewrite ?orb_true_r.
  - intros (a & Ha%list_elem_of_In & ->%String.eqb_eq). done.
  - intros Ha. eexists. split; [by apply list_elem_of_In|done].
Qed.

(** X4. Cutting the argument at its second "=" changes nothing: the number
    read from [--count=v] is [parseInt] of the whole of [v]. *)
Theorem X4_split_is_harmless (v : string) :
  Js.parseInt_field (Js.split_eq ("--count=" +:+ v) !! 1) = Js.parseInt v
  ∧ Js.parseInt_field (Js.split_eq ("--max-pages=" +:+ v) !! 1) = Js.parseInt v.
Proof. split; apply parseInt_field_split. Qed.

(** X5. A count or a page budget written in decimal is read back as it is:
    for [1 <= n <= 2^53], the range in which a JavaScript number holds every
    integer exactly, [--count=n] gives the count [n] and [--max-pages=n]
    gives the page budget [n]. *)
Theorem X5_decimal_round_trip (n : nat) :
  1 ≤ n → (Z.of_nat n ≤ 2 ^ 53)%Z →
  Cli.count (Cli.parseArgs ["node"; "index.js"; "--count=" +:+ decimal n])
  = Z.of_nat n
  ∧ Cli.maxPages
      (Cli.parseArgs ["node"; "index.js"; "--max-pages=" +:+ decimal n])
    = Z.of_nat n.
Proof.
  intros Hn _. unfold Cli.parseArgs. simpl drop. simpl foldl.
  rewrite step_count, step_maxPages. simpl.
  rewrite !parseInt_field_split, !parseInt_decimal. simpl.
  destruct (Z.of_nat n =? 0)%Z eqn:H0; lia.
Qed.

Lemma X5_decimal_round_trip_witness :
  Cli.count (Cli.parseArgs ["node"; "index.js"; "--count=250"]) = 250%Z
  ∧ Cli.maxPages (Cli.parseArgs ["node"; "index.js"; "--max-pages=250"])
    = 250%Z.
Proof. apply (X5_decimal_round_trip 250); [lia|by vm_compute]. Defined.

(** ** The urls visited *)

(** X6. The url computed from a next link always starts with "http", and
    computing it again from the result changes nothing. *)
Theorem X6_next_url_absolute (h : string) :
  Js.startsWith "http" (next_url h) = true
  ∧ next_url (next_url h) = next_url h.
Proof.
  split; [apply next_url_absolute|].
  unfold next_url at 1. by rewrite next_url_absolute.
Qed.

(** X7. A relative next link leads to the same url with or without its
    leading slash: for [h] starting neither with "http" nor with "/", the
    links [h] and ["/" + h] both give [BASE + "/" + h]. *)
Theorem X7_leading_slash_is_optional (h : string) :
  Js.startsWith "http" h = false → Js.startsWith "/" h = false →
  next_url h = BASE +:+ "/" +:+ h
  ∧ next_url ("/" +:+ h) = BASE +:+ "/" +:+ h.
Proof.
  intros Hh Hs. split; [by apply next_url_relative|]. reflexivity.
Qed.

Lemma X7_leading_slash_is_optional_witness :
  next_url "newest?next=41&n=31" = "https://news.ycombinator.com/newest?next=41&n=31"
  ∧ next_url "/newest?next=41&n=31" = "https://news.ycombinator.com/newest?next=41&n=31".
Proof. by apply (X7_leading_slash_is_optional "newest?next=41&n=31"). Defined.

(** X8. Every [goto] of a run is made on a url that starts with the four
    characters "http". *)
Theorem X8_gotos_start_with_http {World : Type} `{Browser World}
    (want maxPages : nat) (w : World) (u : string) :
  EvGoto u ∈ trace (collect want maxPages w).2 →
  Js.startsWith "http" u = true.
Proof.
  intros Hu.
  assert (Forall (λ e, ∀ u, e = EvGoto u → Js.startsWith "http" u = true)
            (trace (collect want maxPages w).2)) as Hall
    by (apply loop_urls; [done|constructor]).
  rewrite Forall_forall in Hall. by apply (Hall _ Hu).
Qed.

Lemma X8_gotos_start_with_http_witness :
  EvGoto "https://news.ycombinator.com/newest?next=b"
    ∈ trace (collect 3 5 two_pages).2
  ∧ Js.startsWith "http" "https://news.ycombinator.com/newest?next=b" = true.
Proof.
  assert (EvGoto "https://news.ycombinator.com/newest?next=b"
            ∈ trace (collect 3 5 two_pages).2) as Hin
    by (vm_compute; set_solver).
  split; [done|]. by apply (X8_gotos_start_with_http 3 5 two_pages).
Defined.

(** X9. Whatever the command line, the program navigates at least once, and
    its first navigation is to [START]. *)
Theorem X9_main_starts_at_START {World : Type} `{Browser World}
    (argv : list string) (w : World) :
  [EvGoto START] `prefix_of` trace (main argv w).2.
Proof.
  unfold main, collect.
  destruct (parseArgs_floor argv) as [Hc Hm].
  destruct (Z.to_nat (Cli.maxPages (Cli.parseArgs argv))) as [|n] eqn:Hn; [lia|].
  apply (loop_first_goto _ (S n) n (init w)).
  apply cond_true. simpl. lia.
Qed.

(** ** The outcome of a run *)

(** X10. Budget correctness: when the source supplies fewer than [want]
    unique valid entries within [maxPages] pages, the run ends with
    [ok = false] and exit code 1, and what it collected and reports is
    everything the source supplied. *)
Theorem X10_insufficient_items {World : Type} `{Browser World}
    (want maxPages : nat) (w : World) :
  length (supply maxPages w) < want →
  let r := collect want maxPages w in
  Out.ok (report_json want maxPages r) = false
  ∧ exit_code want r = 1
  ∧ collected r.2 = supply maxPages w
  ∧ Out.items (report_json want maxPages r) = supply maxPages w.
Proof.
  intros Hlt r.
  assert (collected r.2 = supply maxPages w) as Hc
    by (unfold r; rewrite collect_collected; apply take_ge; lia).
  assert ((want <=? length (collected r.2)) = false) as Hle
    by (apply Nat.leb_gt; by rewrite Hc).
  split_and!; [| |done|unfold r in *; by rewrite report_items].
  - unfold report_json. rewrite Hle. by destruct r.1.
  - unfold exit_code. rewrite Hle. by destruct r.1.
Qed.

Lemma X10_insufficient_items_witness :
  length (supply 5 two_pages) < 10
  ∧ let r := collect 10 5 two_pages in
    Out.ok (report_json 10 5 r) = false
    ∧ exit_code 10 r = 1
    ∧ collected r.2 = supply 5 two_pages
    ∧ Out.items (report_json 10 5 r) = supply 5 two_pages.
Proof.
  assert (length (supply 5 two_pages) < 10) as Hlt by (vm_compute; lia).
  split; [done|]. by apply (X10_insufficient_items 10 5 two_pages).
Defined.



(** X12. The printed JSON is consistent: [summary.collected] is the length of
    [items]; [ok] holds exactly when [summary.collected] equals
    [summary.requested], which is exactly when the exit code is 0;
    [summary.collected] never exceeds [summary.requested], [summary.pages]
    never exceeds [summary.maxPages], and [ok] never comes with [error]. *)
Theorem X12_json_consistent {World : Type} `{Browser World}
    (want maxPages : nat) (w : World) :
  let r := collect want maxPages w in
  let j := report_json want maxPages r in
  Out.collected (Out.summary j) = length (Out.items j)
  ∧ (Out.ok j = true ↔ Out.collected (Out.summary j) = Out.requested (Out.summary j))
  ∧ (Out.ok j = true ↔ exit_code want r = 0)
  ∧ Out.collected (Out.summary j) ≤ Out.requested (Out.summary j)
  ∧ Out.pages (Out.summary j) ≤ Out.maxPages (Out.summary j)
  ∧ (Out.ok j = true → Out.error j = false).
Proof.
  intros r j. pose proof (report_items want maxPages w) as Hi.
  fold r in Hi. fold j in Hi.
  pose proof (collect_exit want maxPages w) as (Hpg & Hle & Hex).
  fold r in Hpg, Hle, Hex.
  assert (r.1 = Threw → (want <=? length (collected r.2)) = false) as Hth.
  { intros He. rewrite He in Hex. apply Nat.leb_gt. lia. }
  assert (Out.summary j =
          {| Out.requested := want; Out.collected := length (collected r.2);
             Out.pages := pages r.2; Out.maxPages := maxPages |}) as Hsum
    by (unfold j, report_json; by destruct r.1).
  assert (Out.ok j = (want <=? length (collected r.2))) as Hok.
  { unfold j, report_json. destruct r.1 eqn:He; try done. by rewrite Hth. }
  assert (exit_code want r = if want <=? length (collected r.2) then 0 else 1)
    as Hexit.
  { unfold exit_code. destruct r.1 eqn:He; try done. by rewrite Hth. }
  assert (Out.error j = true → (want <=? length (collected r.2)) = false)
    as Herr.
  { unfold j, report_json. destruct r.1 eqn:He; try done. intros _. by apply Hth. }
  rewrite Hsum, Hok, Hexit, Hi. simpl. rewrite Nat.leb_le.
  split_and!; [done|lia| |done|done|].
  - destruct (want <=? length (collected r.2)) eqn:Hb;
      [apply Nat.leb_le in Hb|apply Nat.leb_gt in Hb]; split; (done || lia).
  - intros Hw. destruct (Out.error j); [|done].
    specialize (Herr eq_refl). apply Nat.leb_gt in Herr. lia.
Qed.

(** X13. At the end of every run [seen] holds exactly the ids of the
    collected entries, so [seen.size] equals [collected.length]. *)
Theorem X13_seen_is_ids_of_collected {World : Type} `{Browser World}
    (want maxPages : nat) (w : World) :
  let r := collect want maxPages w in
  (∀ i, i ∈ seen r.2 ↔ ∃ it, it ∈ collected r.2 ∧ id it = i)
  ∧ size (seen r.2) = length (collected r.2).
Proof.
  intros r. destruct (collect_sound want maxPages w) as (_ & (Hnd & Hs) & _).
  fold r in Hnd, Hs. simpl in Hnd, Hs. split.
  - intros i. rewrite Hs. unfold ids.
    rewrite elem_of_list_to_set, list_elem_of_fmap. naive_solver.
  - by rewrite Hs, size_ids.
Qed.

(** X14. Raising the page budget only extends the output: with the same
    count and source, what is collected within [n] pages is a prefix of what
    is collected within [m >= n] pages. *)
Theorem X14_larger_budget_extends {World : Type} `{Browser World}
    (want n m : nat) (w : World) :
  n ≤ m →
  collected (collect want n w).2 `prefix_of` collected (collect want m w).2.
Proof.
  intros Hnm. rewrite !collect_collected.
  by apply prefix_take_mono, supply_prefix.
Qed.

Lemma X14_larger_budget_extends_witness :
  collected (collect 10 1 two_pages).2
    `prefix_of` collected (collect 10 2 two_pages).2.
Proof. apply (X14_larger_budget_extends 10 1 2 two_pages). lia. Defined.

(** X15. [seen], [collected] and [pages] only grow during a run: at every
    point, the entries collected so far are a prefix of the final
    [collected], the ids seen so far are in the final [seen], and the pages
    counted so far are at most the final [pages]. *)
Theorem X15_state_only_grows {World : Type} `{Browser World}
    (want maxPages : nat) (w : World) (t : list Event) :
  let r := collect want maxPages w in
  t `prefix_of` trace r.2 →
  sn_collected (replay t) `prefix_of` collected r.2
  ∧ sn_seen (replay t) ⊆ seen r.2
  ∧ sn_pages (replay t) ≤ pages r.2.
Proof.
  intros r [k Hk]. destruct (collect_sound want maxPages w) as (Hr & _).
  fold r in Hr. pose proof (replay_mono t k) as Hm.
  rewrite <- Hk, Hr in Hm. done.
Qed.

Lemma X15_state_only_grows_witness :
  let r := collect 3 5 two_pages in
  let t := take 6 (trace r.2) in
  t `prefix_of` trace r.2
  ∧ sn_collected (replay t) `prefix_of` collected r.2
  ∧ sn_seen (replay t) ⊆ seen r.2
  ∧ sn_pages (replay t) ≤ pages r.2.
Proof.
  intros r t. assert (t `prefix_of` trace r.2) as Ht by apply prefix_take.
  split; [done|]. by apply (X15_state_only_grows 3 5 two_pages t).
Defined.

(** ** Calls on the page *)

(** X16. The soft reload is made only for a page that parsed to zero
    entries: in the trace of every run, each reload comes right after a
    scrape that returned no item. *)
Theorem X16_reload_only_after_empty_scrape {World : Type} `{Browser World}
    (want maxPages : nat) (w : World) (t1 t2 : list Event) :
  trace (collect want maxPages w).2 = t1 ++ EvReload :: t2 →
  ∃ t0 r, t1 = t0 ++ [EvScrape (Some r)] ∧ items r = [].
Proof.
  apply (reload_loop want maxPages maxPages (init w)).
  intros t1' t2' Heq. simpl in Heq. by destruct t1'.
Qed.

Lemma X16_reload_only_after_empty_scrape_witness :
  let t := trace (collect 100 15 empty_then_twelve).2 in
  t = take 2 t ++ EvReload :: drop 3 t
  ∧ ∃ t0 r, take 2 t = t0 ++ [EvScrape (Some r)] ∧ items r = [].
Proof.
  intros t. assert (t = take 2 t ++ EvReload :: drop 3 t) as Ht by by vm_compute.
  split; [done|].
  exact (X16_reload_only_after_empty_scrape 100 15 empty_then_twelve _ _ Ht).
Defined.


(** X18. Once the requested count is reached nothing more is fetched: from a
    point of the run at which [collected.length >= want] on, the only thing
    that can still happen is the increment of [pages] for the current page;
    no entry is looked up or added, no page is navigated to, scraped or
    reloaded. *)
Theorem X18_nothing_after_the_cap {World : Type} `{Browser World}
    (want maxPages : nat) (w : World) (t1 t2 : list Event) :
  trace (collect want maxPages w).2 = t1 ++ t2 →
  want ≤ length (sn_collected (replay t1)) →
  t2 = [] ∨ t2 = [EvPages].
Proof.
  apply (loop_idle want maxPages maxPages (init w)); [apply sound_init| |by right].
  intros t Ht Hne. simpl in *. by apply prefix_nil_inv in Ht.
Qed.

Lemma X18_nothing_after_the_cap_witness :
  let t := trace (collect 3 5 two_pages).2 in
  t = take 15 t ++ drop 15 t
  ∧ 3 ≤ length (sn_collected (replay (take 15 t)))
  ∧ (drop 15 t = [] ∨ drop 15 t = [EvPages]).
Proof.
  intros t.
  assert (t = take 15 t ++ drop 15 t) as Ht by (by rewrite take_drop).
  assert (3 ≤ length (sn_collected (replay (take 15 t)))) as Hc
    by (vm_compute; lia).
  split_and!; [done..|].
  exact (X18_nothing_after_the_cap 3 5 two_pages _ _ Ht Hc).
Defined.

(** ** The entries *)

(** X19. Every collected entry has a non-empty id, title and timestamp, so
    the placeholders "(no-iso)" and "(no-id)" of [fmtItem] are never
    printed: each numbered line is the padded ordinal, the timestamp, the id
    and the title of its entry. *)
Theorem X19_no_placeholder_is_printed {World : Type} `{Browser World}
    (want maxPages : nat) (w : World) :
  let r := collect want maxPages w in
  Forall (λ it, id it ≠ "" ∧ title it ≠ "" ∧ iso it ≠ "") (collected r.2)
  ∧ report_lines want r =
      (if r.1 is Threw then []
       else imap (λ i it, pad3 (i + 1) +:+ ". " +:+ iso it +:+ "  "
                          +:+ id it +:+ "  -  " +:+ title it)
              (collected r.2)).
Proof.
  intros r.
  assert (Forall (λ it, id it ≠ "" ∧ title it ≠ "" ∧ iso it ≠ "")
            (collected r.2)) as Hall.
  { apply Forall_forall. intros it Hit.
    apply collected_from_row in Hit as (tr & Htr).
    apply row_entry_spec in Htr as [(Hi & Ht & Hs) ->]. done. }
  split; [done|].
  pose proof (collect_exit want maxPages w) as (_ & Hle & _). fold r in Hle.
  unfold report_lines. rewrite (take_ge (collected r.2)) by done.
  assert (imap (λ i it, fmtItem (i + 1) it) (collected r.2)
          = imap (λ i it, pad3 (i + 1) +:+ ". " +:+ iso it +:+ "  "
                          +:+ id it +:+ "  -  " +:+ title it)
              (collected r.2)) as Heq.
  { apply imap_ext. intros i it Hit.
    rewrite Forall_forall in Hall.
    destruct (Hall it) as (Hi & Ht & Hs); [by eapply list_elem_of_lookup_2|].
    unfold fmtItem. simpl.
    apply truthy_true in Hi, Ht, Hs. by rewrite Hi, Ht, Hs. }
  rewrite Heq. by destruct r.1.
Qed.

(** X20. The title of every collected entry has no white space at either
    end: trimming it at the start, at the end or at both ends changes
    nothing. *)
Theorem X20_titles_are_trimmed {World : Type} `{Browser World}
    (want maxPages : nat) (w : World) (it : Item) :
  it ∈ collected (collect want maxPages w).2 →
  Js.trimStart (title it) = title it
  ∧ Js.trimEnd (title it) = title it
  ∧ Js.trim (title it) = title it.
Proof.
  intros (tr & Htr)%collected_from_row.
  apply row_entry_spec in Htr as [_ ->]. simpl.
  destruct (trim_clean (raw_title tr)) as [H1 H2].
  split_and!; [done|done|apply trim_idem].
Qed.

Lemma X20_titles_are_trimmed_witness :
  let it := {| id := "a"; title := "A"; iso := "t1" |} in
  it ∈ collected (collect 3 5 two_pages).2
  ∧ Js.trimStart (title it) = title it
  ∧ Js.trimEnd (title it) = title it
  ∧ Js.trim (title it) = title it.
Proof.
  intros it.
  assert (it ∈ collected (collect 3 5 two_pages).2) as Hin
    by (vm_compute; set_solver).
  split; [done|]. by apply (X20_titles_are_trimmed 3 5 two_pages).
Defined.

(** X21. The extraction keeps the order of the rows: the ids of the items of
    a page form a subsequence of the id attributes of its rows. *)
Theorem X21_extraction_keeps_row_order (d : Document) :
  (id <$> items (extract d)) `sublist_of` (raw_id <$> rows d).
Proof. apply extract_order. Qed.

(** X22. When the source supplies fewer than [want] unique valid entries
    within the page budget, [pages] ends as the number of pages the source
    offered within that budget: every such page is visited, and counted
    once. *)
Theorem X22_pages_when_short {World : Type} `{Browser World}
    (want maxPages : nat) (w : World) :
  length (supply maxPages w) < want →
  pages (collect want maxPages w).2 = length (crawl maxPages START w).
Proof.
  intros Hlt. unfold collect.
  rewrite loop_pages; simpl; rewrite ?Nat.sub_0_r; [done|lia|done].
Qed.

Lemma X22_pages_when_short_witness :
  length (supply 5 two_pages) < 10
  ∧ pages (collect 10 5 two_pages).2 = length (crawl 5 START two_pages).
Proof.
  assert (length (supply 5 two_pages) < 10) as Hlt by (vm_compute; lia).
  split; [done|]. by apply (X22_pages_when_short 10 5 two_pages).
Defined.

(** ** From the command line to the output *)

(** X23. End to end: with [--count=n] written in decimal, [n >= 1], and no
    other argument, on a source that supplies at least [n] unique valid
    entries within the default budget of 15 pages, the program collects
    exactly [n] entries, the first [n] the source supplies, and reports
    [ok = true]. *)
Theorem X23_count_flag_end_to_end {World : Type} `{Browser World}
    (n : nat) (w : World) :
  1 ≤ n → n ≤ length (supply 15 w) →
  let r := main ["node"; "index.js"; "--count=" +:+ decimal n] w in
  collected r.2 = take n (supply 15 w)
  ∧ length (collected r.2) = n
  ∧ Out.ok (report_json n 15 r) = true.
Proof.
  intros Hn Hsup r.
  assert (r = collect n 15 w) as ->.
  { unfold r, main, Cli.parseArgs. simpl drop. simpl foldl.
    rewrite step_count. simpl.
    rewrite parseInt_field_split, parseInt_decimal. simpl.
    destruct (Z.of_nat n =? 0)%Z eqn:H0; [lia|].
    by replace (Z.to_nat (1 `max` Z.of_nat n)) with n by lia. }
  assert (length (collected (collect n 15 w).2) = n) as Hlen
    by (rewrite collect_collected, length_take; lia).
  split_and!; [apply collect_collected|done|].
  pose proof (collect_exit n 15 w) as (_ & _ & Hex).
  unfold report_json. rewrite Hlen, Nat.leb_refl.
  destruct (collect n 15 w).1; try done. lia.
Qed.

Lemma X23_count_flag_end_to_end_witness :
  let r := main ["node"; "index.js"; "--count=3"] two_pages in
  collected r.2 = take 3 (supply 15 two_pages)
  ∧ length (collected r.2) = 3
  ∧ Out.ok (report_json 3 15 r) = true.
Proof.
  apply (X23_count_flag_end_to_end 3 two_pages); [lia|vm_compute; lia].
Defined.
